(** * Video recorder with local backup: store and upload coordinator

    A shallow embedding of [src/videoStorage.ts], [src/app/uploadService.ts]
    and the upload handlers of [src/app/page.tsx].

    Conventions of the embedding.
    - An [async] method is a computation in the monad [M S]: it threads a
      state [S] and either returns a value or throws.  The program runs on
      one logical thread and every handler is modelled as running to
      completion, so [await] is sequencing.
    - The IndexedDB object store ['videos'] (key path ['id']) is a
      [gmap string StoredVideo].  Requests against an open database
      succeed, except [add] on a key that is already present, which fails
      with a [ConstraintError] as IndexedDB specifies.
    - What the environment decides ([Date.now()], [Math.random()], the
      answer to [fetch]) is an explicit argument of the function that
      asks for it.
    - [console.log] and the waiting done by [delay] have no effect on the
      modelled state and are left out. *)

From Stdlib Require Import ZArith QArith Ascii String List Sorted Lia.
From Stdlib.Strings Require Import Byte.
From stdpp Require Import base option strings list gmap fin_maps pretty.

Local Open Scope string_scope.
Local Open Scope list_scope.
Local Open Scope Z_scope.
Local Set Warnings "-register-all".

(** ** JavaScript values that the code throws *)

(** A thrown value is either an [Error] instance (this covers [TypeError]
    and [DOMException]), with its [name] and [message], or some other
    value; [realUpload] tells the two apart with [instanceof Error]. *)
Inductive Thrown : Type :=
| JsError (name message : string)
| NotAnError.

(** [new Error('Video not found')], thrown by [markAsUploaded]. *)
Definition NotFound : Thrown := JsError "Error" "Video not found".

(** The [request.error] of an [add] whose key exists already. *)
Definition ConstraintError : Thrown :=
  JsError "ConstraintError" "Key already exists in the object store.".

(** ** The monad of asynchronous methods *)

Inductive Result (A : Type) : Type :=
| Ok (a : A)
| Throw (e : Thrown)
| OutOfFuel.
Arguments Ok {A} a.
Arguments Throw {A} e.
Arguments OutOfFuel {A}.

Definition M (S A : Type) : Type := S -> Result A * S.

Definition ret {S A} (a : A) : M S A := fun s => (Ok a, s).

Definition bind {S A B} (m : M S A) (k : A -> M S B) : M S B :=
  fun s =>
    match m s with
    | (Ok a, s') => k a s'
    | (Throw e, s') => (Throw e, s')
    | (OutOfFuel, s') => (OutOfFuel, s')
    end.

Definition throw {S A} (e : Thrown) : M S A := fun s => (Throw e, s).

Definition get_state {S} : M S S := fun s => (Ok s, s).

Definition modify {S} (f : S -> S) : M S unit := fun s => (Ok tt, f s).

(** [try { body } catch (error) { handler }] *)
Definition try_catch {S A} (body : M S A) (handler : Thrown -> M S A) : M S A :=
  fun s =>
    match body s with
    | (Throw e, s') => handler e s'
    | r => r
    end.

(** Run a computation on a component [get] of a larger state. *)
Definition zoom {S T A} (get : T -> S) (set : S -> T -> T) (m : M S A) : M T A :=
  fun t => let (r, s') := m (get t) in (r, set s' t).

Declare Scope js_scope.
Delimit Scope js_scope with js.
Notation "x <- m ;; k" := (bind m (fun x => k))
  (at level 100, m at next level, right associativity) : js_scope.
Notation "m ;; k" := (bind m (fun _ => k))
  (at level 100, right associativity) : js_scope.
Local Open Scope js_scope.

(** [for (let i = start; i <= limit; i += step) body(i)].  The recursion
    is on [fuel]; a loop that is cut short by it ends in [OutOfFuel]. *)
Fixpoint for_loop {S} (fuel : nat) (i limit step : Z) (body : Z -> M S unit)
  : M S unit :=
  if i <=? limit then
    match fuel with
    | O => fun s => (OutOfFuel, s)
    | Datatypes.S fuel' => body i ;; for_loop fuel' (i + step) limit step body
    end
  else ret tt.

(** The loop with the fuel it needs: for a positive [step] it runs
    [(limit - start) / step + 1] times when [start <= limit]. *)
Definition for_upto {S} (start limit step : Z) (body : Z -> M S unit) : M S unit :=
  for_loop (Z.to_nat ((limit - start) / step + 1)) start limit step body.

(** ** videoStorage.ts *)

Module VideoStorage.

(** A [Blob]: its bytes and its MIME type. *)
Record Blob : Type := { bytes : list byte; type : string }.

Record StoredVideo : Type := {
  id : string;
  blob : Blob;
  timestamp : Z;
  uploaded : bool;
  fileName : string;
}.

(** [video.uploaded = true] *)
Definition set_uploaded (video : StoredVideo) : StoredVideo :=
  {| id := id video; blob := blob video; timestamp := timestamp video;
     uploaded := true; fileName := fileName video |}.

(** The service instance together with the database it opens: [db] says
    whether [this.db] holds a handle, [videos] is the object store. *)
Record VideoStorageService : Type := {
  db : bool;
  videos : gmap string StoredVideo;
}.

Definition with_db (b : bool) (s : VideoStorageService) : VideoStorageService :=
  {| db := b; videos := videos s |}.

Definition with_videos (m : gmap string StoredVideo) (s : VideoStorageService)
  : VideoStorageService :=
  {| db := db s; videos := m |}.

Abbreviation Storage := (M VideoStorageService).

(** [init]: [indexedDB.open]; on success the handle is kept.  The object
    store is created by [onupgradeneeded] when it is missing, which is the
    empty map here. *)
Definition init : Storage unit := modify (with_db true).

(** [if (!this.db) await this.init();] *)
Definition ensure_init : Storage unit :=
  s <- get_state ;; if db s then ret tt else init.

(** [store.add(video)]: refuses a key that is present. *)
Definition store_add (video : StoredVideo) : Storage unit :=
  s <- get_state ;;
  match videos s !! id video with
  | Some _ => throw ConstraintError
  | None => modify (with_videos (<[id video := video]> (videos s)))
  end.

(** [store.put(video)]: inserts or overwrites. *)
Definition store_put (video : StoredVideo) : Storage unit :=
  modify (fun s => with_videos (<[id video := video]> (videos s)) s).

(** [store.get(id)]: [undefined] for a missing key. *)
Definition store_get (key : string) : Storage (option StoredVideo) :=
  s <- get_state ;; ret (videos s !! key).

(** [store.getAll()] *)
Definition store_getAll : Storage (list StoredVideo) :=
  s <- get_state ;; ret ((map_to_list (videos s)).*2).

(** [store.delete(id)]: succeeds whether or not the key is present. *)
Definition store_delete (key : string) : Storage unit :=
  modify (fun s => with_videos (delete key (videos s)) s).

(** What [saveVideo] reads from the environment: the two readings of
    [Date.now()] (for the id, then for [timestamp]),
    [Math.random().toString(36)] and [new Date().toISOString()]. *)
Record SaveEnv : Type := {
  now_id : Z;
  now_timestamp : Z;
  random36 : string;
  isoString : string;
}.

(** [s.split(sep)[0]]: the part of [s] before the first [sep]. *)
Fixpoint split_head (sep : ascii) (s : string) : string :=
  match s with
  | EmptyString => EmptyString
  | String c s' => if Ascii.eqb c sep then EmptyString else String c (split_head sep s')
  end.

(** [`video_${Date.now()}_${Math.random().toString(36).substr(2, 9)}`] *)
Definition make_id (now : Z) (random36 : string) : string :=
  "video_" +:+ pretty now +:+ "_" +:+ substring 2 9 random36.

(** [`recording_${new Date().toISOString().split('T')[0]}.webm`] *)
Definition make_fileName (iso : string) : string :=
  "recording_" +:+ split_head "T"%char iso +:+ ".webm".

Definition new_video (env : SaveEnv) (b : Blob) : StoredVideo :=
  {| id := make_id (now_id env) (random36 env);
     blob := b;
     timestamp := now_timestamp env;
     uploaded := false;
     fileName := make_fileName (isoString env) |}.

Definition saveVideo (env : SaveEnv) (b : Blob) : Storage string :=
  ensure_init ;;
  let video := new_video env b in
  store_add video ;;
  ret (id video).

Definition getAllVideos : Storage (list StoredVideo) :=
  ensure_init ;; store_getAll.

(** [resolve(request.result || null)]: a stored record is an object, so
    it is never falsy. *)
Definition getVideo (key : string) : Storage (option StoredVideo) :=
  ensure_init ;; store_get key.

Definition markAsUploaded (key : string) : Storage unit :=
  ensure_init ;;
  video <- getVideo key ;;
  match video with
  | None => throw NotFound
  | Some video => store_put (set_uploaded video)
  end.

Definition deleteVideo (key : string) : Storage unit :=
  ensure_init ;; store_delete key.

(** What [navigator.storage.estimate()] resolves to; a field may be
    missing. *)
Record StorageEstimate : Type := {
  usage : option Z;
  quota : option Z;
}.

(** [estimate] is [None] where the browser has no
    [navigator.storage.estimate]; [x || 0] is [0] for a missing field. *)
Definition getStorageEstimate (estimate : option StorageEstimate) : Storage (Z * Z) :=
  match estimate with
  | Some estimate => ret (default 0 (usage estimate), default 0 (quota estimate))
  | None => ret (0, 0)
  end.

End VideoStorage.

(** ** uploadService.ts *)

Module UploadService.

Import VideoStorage.

Inductive UploadStatus : Type := idle | uploading | success | failed.

(** A parsed JSON document, what [response.json()] resolves to. *)
Inductive Json : Type :=
| JNull
| JBool (b : bool)
| JNumber (n : Z)
| JString (s : string)
| JArray (items : list Json)
| JObject (members : list (string * Json)).

Module UploadResult.
Record t : Type := {
  success : bool;
  message : string;
  uploadedUrl : option Json;
}.
End UploadResult.

Module UploadProgress.
Record t : Type := {
  status : UploadStatus;
  progress : Z;  (* 0-100 *)
  message : string;
}.
End UploadProgress.

(** The member [key] of an object literal; a repeated key keeps its last
    value, as [JSON.parse] does. *)
Fixpoint member (key : string) (members : list (string * Json)) : option Json :=
  match members with
  | [] => None
  | (k, v) :: rest =>
      match member key rest with
      | Some v' => Some v'
      | None => if String.eqb k key then Some v else None
      end
  end.

(** [value.key]: [undefined] where the property is missing, and a
    [TypeError] on [null]. *)
Definition read_property {S} (value : Json) (key : string) : M S (option Json) :=
  match value with
  | JNull =>
      throw (JsError "TypeError"
               ("Cannot read properties of null (reading '" +:+ key +:+ "')"))
  | JObject members => ret (member key members)
  | _ => ret None
  end.

(** The answer to [fetch]: the promise rejects, or resolves to a response
    whose body parses as JSON or fails to. *)
Record Response : Type := {
  ok : bool;
  http_status : Z;
  statusText : string;
  body : Thrown + Json;
}.

Inductive FetchOutcome : Type :=
| FetchRejects (e : Thrown)
| FetchResolves (response : Response).

Definition fetch {S} (answer : FetchOutcome) : M S Response :=
  match answer with
  | FetchRejects e => throw e
  | FetchResolves response => ret response
  end.

(** [response.json()] *)
Definition json {S} (response : Response) : M S Json :=
  match body response with
  | inl e => throw e
  | inr value => ret value
  end.

Section Strategies.

Context {S : Type}.

(** The observer handed in by the caller. *)
Definition Observer : Type := UploadProgress.t -> M S unit.

(** [onProgress?.(p)] *)
Definition notify (onProgress : option Observer) (p : UploadProgress.t) : M S unit :=
  match onProgress with
  | Some f => f p
  | None => ret tt
  end.

(** [random] is the value of [Math.random()], a number in [0, 1); [now]
    is read by [Date.now()] on the successful branch only. *)
Definition mockUpload (random : Q) (now : Z) (b : Blob)
  (onProgress : option Observer) : M S UploadResult.t :=
  for_upto 0 100 10 (fun i =>
    notify onProgress
      {| UploadProgress.status := uploading;
         UploadProgress.progress := i;
         UploadProgress.message := "Uploading... " +:+ pretty i +:+ "%" |}) ;;
  let shouldSucceed := negb (Qle_bool random (3 # 10)) in
  if shouldSucceed then
    let mockUrl := "https://mock-cdn.example.com/videos/" +:+ pretty now +:+ ".webm" in
    notify onProgress
      {| UploadProgress.status := success;
         UploadProgress.progress := 100;
         UploadProgress.message := "Upload successful!" |} ;;
    ret {| UploadResult.success := true;
           UploadResult.message := "Video uploaded successfully";
           UploadResult.uploadedUrl := Some (JString mockUrl) |}
  else
    notify onProgress
      {| UploadProgress.status := failed;
         UploadProgress.progress := 0;
         UploadProgress.message := "Upload failed - Network error" |} ;;
    ret {| UploadResult.success := false;
           UploadResult.message := "Upload failed - Network error simulated";
           UploadResult.uploadedUrl := None |}.

(** [error instanceof Error ? error.message : 'Unknown error occurred'] *)
Definition errorMessage (error : Thrown) : string :=
  match error with
  | JsError _ message => message
  | NotAnError => "Unknown error occurred"
  end.

(** [answer] is what the request to [https://httpbin.org/post] comes
    back with. *)
Definition realUpload (answer : FetchOutcome) (b : Blob)
  (onProgress : option Observer) : M S UploadResult.t :=
  try_catch
    (notify onProgress
       {| UploadProgress.status := uploading;
          UploadProgress.progress := 50;
          UploadProgress.message := "Uploading to server..." |} ;;
     response <- fetch answer ;;
     (if negb (ok response) then
        throw (JsError "Error"
                 ("HTTP " +:+ pretty (http_status response) +:+ ": "
                  +:+ statusText response))
      else ret tt) ;;
     result <- json response ;;
     notify onProgress
       {| UploadProgress.status := success;
          UploadProgress.progress := 100;
          UploadProgress.message := "Upload successful!" |} ;;
     url <- read_property result "url" ;;
     ret {| UploadResult.success := true;
            UploadResult.message := "Video uploaded successfully";
            UploadResult.uploadedUrl := url |})
    (fun error =>
       notify onProgress
         {| UploadProgress.status := failed;
            UploadProgress.progress := 0;
            UploadProgress.message := "Upload failed: " +:+ errorMessage error |} ;;
       ret {| UploadResult.success := false;
              UploadResult.message := "Upload failed: " +:+ errorMessage error;
              UploadResult.uploadedUrl := None |}).

Definition forceFailUpload (onProgress : option Observer) : M S UploadResult.t :=
  for_upto 0 60 20 (fun i =>
    notify onProgress
      {| UploadProgress.status := uploading;
         UploadProgress.progress := i;
         UploadProgress.message := "Uploading... " +:+ pretty i +:+ "%" |}) ;;
  notify onProgress
    {| UploadProgress.status := failed;
       UploadProgress.progress := 0;
       UploadProgress.message := "Network connection lost" |} ;;
  ret {| UploadResult.success := false;
         UploadResult.message := "Network connection lost - Upload failed";
         UploadResult.uploadedUrl := None |}.

End Strategies.

Arguments Observer S : clear implicits.

(** The three strategies behind one selector, with what each reads from
    the environment. *)
Inductive Strategy : Type :=
| Mock (random : Q) (now : Z)
| Real (answer : FetchOutcome)
| ForceFail.

Definition attempt {S} (strategy : Strategy) (b : Blob)
  (onProgress : option (Observer S)) : M S UploadResult.t :=
  match strategy with
  | Mock random now => mockUpload random now b onProgress
  | Real answer => realUpload answer b onProgress
  | ForceFail => forceFailUpload onProgress
  end.

(** An observer that keeps every notification it is given, in order. *)
Definition recorder : Observer (list UploadProgress.t) :=
  fun p => modify (fun seen => seen ++ [p]).

(** The notifications a call delivers to its observer, and what it
    returns. *)
Definition delivered (strategy : Strategy) (b : Blob) : list UploadProgress.t :=
  snd (attempt strategy b (Some recorder) []).

Definition outcome (strategy : Strategy) (b : Blob) : Result UploadResult.t :=
  fst (attempt strategy b (Some recorder) []).

Definition is_terminal (p : UploadProgress.t) : bool :=
  match UploadProgress.status p with
  | success | failed => true
  | idle | uploading => false
  end.

End UploadService.

(** ** app/page.tsx: the upload and delete handlers *)

Module Page.

Import VideoStorage UploadService.

(** The value of the upload-mode selector, with what the selected
    strategy will read from the environment during the next upload. *)
Abbreviation UploadMode := Strategy.

(** Calls that the handlers make on the two services, and the updates of
    the [uploadProgress] state, in the order they happen. *)
Inductive Event : Type :=
| CallGetVideo (id : string)
| CallGetAllVideos
| CallMarkAsUploaded (id : string)
| CallDeleteVideo (id : string)
| CallMockUpload (b : Blob)
| CallRealUpload (b : Blob)
| CallForceFailUpload
| SetUploadProgress (p : UploadProgress.t).

(** The component's state, the storage service it talks to, and the
    trace of events so far. *)
Record State : Type := {
  storage : VideoStorageService;
  uploadProgress : UploadProgress.t;
  storedVideos : list StoredVideo;
  uploadMode : UploadMode;
  trace : list Event;
}.

Definition with_storage (x : VideoStorageService) (st : State) : State :=
  {| storage := x; uploadProgress := uploadProgress st;
     storedVideos := storedVideos st; uploadMode := uploadMode st;
     trace := trace st |}.

Definition with_uploadProgress (x : UploadProgress.t) (st : State) : State :=
  {| storage := storage st; uploadProgress := x;
     storedVideos := storedVideos st; uploadMode := uploadMode st;
     trace := trace st |}.

Definition with_storedVideos (x : list StoredVideo) (st : State) : State :=
  {| storage := storage st; uploadProgress := uploadProgress st;
     storedVideos := x; uploadMode := uploadMode st;
     trace := trace st |}.

Definition with_uploadMode (x : UploadMode) (st : State) : State :=
  {| storage := storage st; uploadProgress := uploadProgress st;
     storedVideos := storedVideos st; uploadMode := x;
     trace := trace st |}.

Definition with_trace (x : list Event) (st : State) : State :=
  {| storage := storage st; uploadProgress := uploadProgress st;
     storedVideos := storedVideos st; uploadMode := uploadMode st;
     trace := x |}.

Abbreviation Handler := (M State).

Definition log (e : Event) : Handler unit :=
  modify (fun st => with_trace (trace st ++ [e]) st).

(** A call on the [videoStorage] singleton. *)
Definition videoStorage {A} (e : Event) (m : Storage A) : Handler A :=
  log e ;; zoom storage with_storage m.

Definition setUploadProgress : Observer State :=
  fun p => log (SetUploadProgress p) ;; modify (with_uploadProgress p).

Definition setStoredVideos (videos : list StoredVideo) : Handler unit :=
  modify (with_storedVideos videos).

(** [onChange] of the upload-mode selector. *)
Definition setUploadMode (mode : UploadMode) : Handler unit :=
  modify (with_uploadMode mode).

Definition idle_progress : UploadProgress.t :=
  {| UploadProgress.status := idle;
     UploadProgress.progress := 0;
     UploadProgress.message := "" |}.

Definition loadStoredVideos : Handler unit :=
  try_catch
    (videos <- videoStorage CallGetAllVideos getAllVideos ;;
     setStoredVideos videos)
    (fun _ => ret tt).

(** The [if / else if / else] on [uploadMode]: the call on
    [uploadService], with [setUploadProgress] as the observer. *)
Definition upload_by_mode (b : Blob) : Handler UploadResult.t :=
  st <- get_state ;;
  match uploadMode st with
  | Mock random now =>
      log (CallMockUpload b) ;;
      mockUpload random now b (Some setUploadProgress)
  | Real answer =>
      log (CallRealUpload b) ;;
      realUpload answer b (Some setUploadProgress)
  | ForceFail =>
      log CallForceFailUpload ;;
      forceFailUpload (Some setUploadProgress)
  end.

(** What [handleUpload] does once the strategy has returned. *)
Definition after_upload (videoId : string) (result : UploadResult.t) : Handler unit :=
  if UploadResult.success result then
    videoStorage (CallMarkAsUploaded videoId) (markAsUploaded videoId) ;;
    loadStoredVideos
  else ret tt.

(** [handleUpload].  Its last statement arms a timer of three seconds
    whose callback is [resetUploadProgress]; the timer fires after the
    handler has returned. *)
Definition handleUpload (videoId : string) (b : Blob) : Handler unit :=
  setUploadProgress
    {| UploadProgress.status := uploading;
       UploadProgress.progress := 0;
       UploadProgress.message := "Starting upload..." |} ;;
  result <- upload_by_mode b ;;
  after_upload videoId result.

Definition resetUploadProgress : Handler unit :=
  setUploadProgress idle_progress.

Definition handleDelete (videoId : string) : Handler unit :=
  try_catch
    (videoStorage (CallDeleteVideo videoId) (deleteVideo videoId) ;;
     loadStoredVideos)
    (fun _ => ret tt).

(** A call that is not awaited: the caller goes on whatever the callee's
    promise settles to. *)
Definition not_awaited {A} (m : Handler A) : Handler unit :=
  fun st =>
    match m st with
    | (OutOfFuel, st') => (OutOfFuel, st')
    | (_, st') => (Ok tt, st')
    end.

(** [onClick] of the upload button under the recorder, shown when
    [recordedVideoId] is set. *)
Definition uploadButton_onClick (recordedVideoId : string) : Handler unit :=
  video <- videoStorage (CallGetVideo recordedVideoId) (getVideo recordedVideoId) ;;
  match video with
  | Some video => not_awaited (handleUpload recordedVideoId (blob video))
  | None => ret tt
  end.

(** [onClick] of the upload button of an entry of the stored list; the
    button is rendered for entries with [!video.uploaded]. *)
Definition storedVideo_onClick (video : StoredVideo) : Handler unit :=
  not_awaited (handleUpload (id video) (blob video)).

(** [disabled={uploadProgress.status === 'uploading'}] on both upload
    buttons. *)
Definition upload_disabled (st : State) : bool :=
  match UploadProgress.status (uploadProgress st) with
  | uploading => true
  | _ => false
  end.

End Page.

(** ** app/page.tsx: formatting *)

Module Format.

(** [n] copies of [s]. *)
Fixpoint repeat_string (n : nat) (s : string) : string :=
  match n with
  | O => EmptyString
  | Datatypes.S n' => s +:+ repeat_string n' s
  end.

(** [s.padStart(targetLength, padString)]: [s] itself when it is long
    enough or the padding is empty, else the padding repeated and cut to
    the missing length, in front of [s]. *)
Definition padStart (targetLength : nat) (padString s : string) : string :=
  let len := String.length s in
  if (targetLength <=? len)%nat then s
  else if String.eqb padString "" then s
  else substring 0 (targetLength - len)
         (repeat_string (targetLength - len) padString) +:+ s.

(** [Number.MAX_SAFE_INTEGER]: up to it every integer is a number of
    JavaScript and arithmetic on integers is exact. *)
Definition MAX_SAFE_INTEGER : Z := 2 ^ 53 - 1.

(** [formatDuration], on an integer number of seconds: [Math.floor] of
    the quotient, and [%], the remainder that takes the sign of the
    dividend.  This is what the code computes for integers of magnitude
    up to [MAX_SAFE_INTEGER]: there the division, rounded to a double,
    does not reach the next integer (the quotient is below 2^48, where
    doubles are 1/32 apart or closer, and it is at least 1/60 away from the
    next integer), [%] is exact, and integers are printed in decimal.
    Beyond that range the code works on rounded numbers and this
    definition does not describe it. *)
Definition formatDuration (seconds : Z) : string :=
  let mins := seconds / 60 in
  let secs := Z.rem seconds 60 in
  pretty mins +:+ ":" +:+ padStart 2 "0" (pretty secs).

End Format.

(** ** app/useVideoRecorder.ts *)

Module VideoRecorder.

Import VideoStorage.

Inductive RecordingState : Type := idle | recording | stopped | saving.

(** The [MediaRecorder] made by [startRecording]: the MIME type it was
    given, which its [onstop] handler keeps, and whether its [state] is
    ['recording']. *)
Record MediaRecorder : Type := {
  mimeType : string;
  active : bool;
}.

(** The state and the refs of the hook.  A [MediaStream] is named by a
    number; [durationIntervalRef] says whether the ref holds a timer. *)
Record Hook : Type := {
  recordingState : RecordingState;
  recordedVideoUrl : option string;
  recordedVideoId : option string;
  error : option string;
  duration : Z;
  mediaRecorderRef : option MediaRecorder;
  streamRef : option nat;
  chunksRef : list Blob;
  durationIntervalRef : bool;
}.

(** The hook in its surroundings: the storage service, the streams whose
    tracks are live, the number of interval timers that are armed, and
    the object URLs that were revoked. *)
Record World : Type := {
  hook : Hook;
  service : VideoStorageService;
  live : gset nat;
  intervals : nat;
  revoked : list string;
}.

Definition initial_hook : Hook :=
  {| recordingState := idle; recordedVideoUrl := None; recordedVideoId := None;
     error := None; duration := 0; mediaRecorderRef := None; streamRef := None;
     chunksRef := []; durationIntervalRef := false |}.

Definition with_hook (x : Hook) (w : World) : World :=
  {| hook := x; service := service w; live := live w;
     intervals := intervals w; revoked := revoked w |}.

Definition with_service (x : VideoStorageService) (w : World) : World :=
  {| hook := hook w; service := x; live := live w;
     intervals := intervals w; revoked := revoked w |}.

Definition with_live (x : gset nat) (w : World) : World :=
  {| hook := hook w; service := service w; live := x;
     intervals := intervals w; revoked := revoked w |}.

Definition with_intervals (x : nat) (w : World) : World :=
  {| hook := hook w; service := service w; live := live w;
     intervals := x; revoked := revoked w |}.

Definition with_revoked (x : list string) (w : World) : World :=
  {| hook := hook w; service := service w; live := live w;
     intervals := intervals w; revoked := x |}.

Abbreviation Recorder := (M World).

Definition update_hook (f : Hook → Hook) : Recorder unit :=
  modify (fun w => with_hook (f (hook w)) w).

Definition setRecordingState (x : RecordingState) : Recorder unit :=
  update_hook (fun h =>
    {| recordingState := x; recordedVideoUrl := recordedVideoUrl h;
       recordedVideoId := recordedVideoId h; error := error h;
       duration := duration h; mediaRecorderRef := mediaRecorderRef h;
       streamRef := streamRef h; chunksRef := chunksRef h;
       durationIntervalRef := durationIntervalRef h |}).

Definition setRecordedVideoUrl (x : option string) : Recorder unit :=
  update_hook (fun h =>
    {| recordingState := recordingState h; recordedVideoUrl := x;
       recordedVideoId := recordedVideoId h; error := error h;
       duration := duration h; mediaRecorderRef := mediaRecorderRef h;
       streamRef := streamRef h; chunksRef := chunksRef h;
       durationIntervalRef := durationIntervalRef h |}).

Definition setRecordedVideoId (x : option string) : Recorder unit :=
  update_hook (fun h =>
    {| recordingState := recordingState h; recordedVideoUrl := recordedVideoUrl h;
       recordedVideoId := x; error := error h;
       duration := duration h; mediaRecorderRef := mediaRecorderRef h;
       streamRef := streamRef h; chunksRef := chunksRef h;
       durationIntervalRef := durationIntervalRef h |}).

Definition setError (x : option string) : Recorder unit :=
  update_hook (fun h =>
    {| recordingState := recordingState h; recordedVideoUrl := recordedVideoUrl h;
       recordedVideoId := recordedVideoId h; error := x;
       duration := duration h; mediaRecorderRef := mediaRecorderRef h;
       streamRef := streamRef h; chunksRef := chunksRef h;
       durationIntervalRef := durationIntervalRef h |}).

(** [setDuration(prev => f(prev))] *)
Definition setDuration (f : Z → Z) : Recorder unit :=
  update_hook (fun h =>
    {| recordingState := recordingState h; recordedVideoUrl := recordedVideoUrl h;
       recordedVideoId := recordedVideoId h; error := error h;
       duration := f (duration h); mediaRecorderRef := mediaRecorderRef h;
       streamRef := streamRef h; chunksRef := chunksRef h;
       durationIntervalRef := durationIntervalRef h |}).

Definition set_mediaRecorderRef (x : option MediaRecorder) : Recorder unit :=
  update_hook (fun h =>
    {| recordingState := recordingState h; recordedVideoUrl := recordedVideoUrl h;
       recordedVideoId := recordedVideoId h; error := error h;
       duration := duration h; mediaRecorderRef := x;
       streamRef := streamRef h; chunksRef := chunksRef h;
       durationIntervalRef := durationIntervalRef h |}).

Definition set_streamRef (x : option nat) : Recorder unit :=
  update_hook (fun h =>
    {| recordingState := recordingState h; recordedVideoUrl := recordedVideoUrl h;
       recordedVideoId := recordedVideoId h; error := error h;
       duration := duration h; mediaRecorderRef := mediaRecorderRef h;
       streamRef := x; chunksRef := chunksRef h;
       durationIntervalRef := durationIntervalRef h |}).

Definition set_chunksRef (x : list Blob) : Recorder unit :=
  update_hook (fun h =>
    {| recordingState := recordingState h; recordedVideoUrl := recordedVideoUrl h;
       recordedVideoId := recordedVideoId h; error := error h;
       duration := duration h; mediaRecorderRef := mediaRecorderRef h;
       streamRef := streamRef h; chunksRef := x;
       durationIntervalRef := durationIntervalRef h |}).

Definition set_durationIntervalRef (x : bool) : Recorder unit :=
  update_hook (fun h =>
    {| recordingState := recordingState h; recordedVideoUrl := recordedVideoUrl h;
       recordedVideoId := recordedVideoId h; error := error h;
       duration := duration h; mediaRecorderRef := mediaRecorderRef h;
       streamRef := streamRef h; chunksRef := chunksRef h;
       durationIntervalRef := x |}).

(** What [startRecording] meets in the browser: [getUserMedia] rejects or
    resolves to a stream, the vp9 codec is supported or not, and the
    constructor and [start] of [MediaRecorder] may throw. *)
Record StartEnv : Type := {
  userMedia : Thrown + nat;
  vp9 : bool;
  construct_throws : option Thrown;
  start_throws : option Thrown;
}.

(** [navigator.mediaDevices.getUserMedia]: the tracks of the stream it
    resolves to are live. *)
Definition getUserMedia (env : StartEnv) : Recorder nat :=
  match userMedia env with
  | inl e => throw e
  | inr stream => modify (fun w => with_live ({[stream]} ∪ live w) w) ;; ret stream
  end.

(** [new MediaRecorder(stream, { mimeType, ... })] *)
Definition new_MediaRecorder (env : StartEnv) (mime : string) : Recorder MediaRecorder :=
  match construct_throws env with
  | Some e => throw e
  | None => ret {| mimeType := mime; active := false |}
  end.

(** [mediaRecorder.start(1000)], on the recorder that the ref holds. *)
Definition recorder_start (env : StartEnv) (r : MediaRecorder) : Recorder unit :=
  match start_throws env with
  | Some e => throw e
  | None => set_mediaRecorderRef (Some {| mimeType := mimeType r; active := true |})
  end.

(** [setInterval(() => setDuration(prev => prev + 1), 1000)], kept in the
    ref. *)
Definition start_interval : Recorder unit :=
  modify (fun w => with_intervals (Datatypes.S (intervals w)) w) ;;
  set_durationIntervalRef true.

(** The message that the [catch] of [startRecording] shows. *)
Definition start_error_message (err : Thrown) : string :=
  match err with
  | JsError name message =>
      if String.eqb name "NotAllowedError" then
        "Camera access denied. Please grant permission."
      else if String.eqb name "NotFoundError" then
        "No camera found on this device."
      else "Failed to start recording: " +:+ message
  | NotAnError => "Failed to start recording"
  end.

Definition startRecording (env : StartEnv) : Recorder unit :=
  try_catch
    (setError None ;;
     setDuration (fun _ => 0) ;;
     stream <- getUserMedia env ;;
     set_streamRef (Some stream) ;;
     let mime := if vp9 env then "video/webm; codecs=vp9" else "video/webm" in
     mediaRecorder <- new_MediaRecorder env mime ;;
     set_mediaRecorderRef (Some mediaRecorder) ;;
     set_chunksRef [] ;;
     recorder_start env mediaRecorder ;;
     setRecordingState recording ;;
     start_interval)
    (fun err =>
       setError (Some (start_error_message err)) ;;
       setRecordingState idle).

(** [blob.size] *)
Definition size (b : Blob) : nat := length (bytes b).

(** The handler of [dataavailable]. *)
Definition ondataavailable (data : Blob) : Recorder unit :=
  if (0 <? size data)%nat then
    w <- get_state ;; set_chunksRef (chunksRef (hook w) ++ [data])
  else ret tt.

(** [new Blob(parts, { type })] *)
Definition new_Blob (parts : list Blob) (mime : string) : Blob :=
  {| bytes := concat (map bytes parts); type := mime |}.

(** [track.stop()] on every track of the stream in the ref, and the ref
    cleared. *)
Definition release_stream : Recorder unit :=
  w <- get_state ;;
  (match streamRef (hook w) with
   | Some stream => modify (fun w => with_live (live w ∖ {[stream]}) w)
   | None => ret tt
   end) ;;
  set_streamRef None.

(** [if (ref.current) { clearInterval(ref.current); ref.current = null }] *)
Definition clear_interval : Recorder unit :=
  w <- get_state ;;
  if durationIntervalRef (hook w) then
    modify (fun w => with_intervals (pred (intervals w)) w) ;;
    set_durationIntervalRef false
  else ret tt.

(** What the handler of [stop] reads from the environment: what
    [saveVideo] reads, and the URL that [URL.createObjectURL] makes. *)
Record StopEnv : Type := {
  save_env : SaveEnv;
  objectUrl : string;
}.

(** The handler of [stop] of the recorder that was made with [mime]. *)
Definition onstop (mime : string) (env : StopEnv) : Recorder unit :=
  setRecordingState saving ;;
  w <- get_state ;;
  let b := new_Blob (chunksRef (hook w)) mime in
  try_catch
    (videoId <- zoom service with_service (saveVideo (save_env env) b) ;;
     setRecordedVideoId (Some videoId) ;;
     setRecordedVideoUrl (Some (objectUrl env)) ;;
     setRecordingState stopped)
    (fun _ =>
       setError (Some "Failed to save video locally") ;;
       setRecordingState idle) ;;
  release_stream ;;
  clear_interval.

(** [mediaRecorder.stop()]: the recorder becomes inactive; the browser
    then delivers the data it still holds and the [stop] event. *)
Definition stopRecording : Recorder unit :=
  w <- get_state ;;
  match mediaRecorderRef (hook w), recordingState (hook w) with
  | Some r, recording =>
      set_mediaRecorderRef (Some {| mimeType := mimeType r; active := false |})
  | _, _ => ret tt
  end.

Definition clearRecording : Recorder unit :=
  w <- get_state ;;
  (match recordedVideoUrl (hook w) with
   | Some url => modify (fun w => with_revoked (revoked w ++ [url]) w)
   | None => ret tt
   end) ;;
  setRecordedVideoUrl None ;;
  setRecordedVideoId None ;;
  setRecordingState idle ;;
  setDuration (fun _ => 0) ;;
  setError None.

(** One firing of an armed interval timer. *)
Definition tick : Recorder unit :=
  w <- get_state ;;
  if (0 <? intervals w)%nat then setDuration (fun prev => prev + 1) else ret tt.

End VideoRecorder.

(** * Vocabulary of the properties *)

Module StoreModel.

Import VideoStorage.

(** The object store has key path ['id']: a record is stored under its
    own [id]. *)
Definition keyed (s : VideoStorageService) : Prop :=
  ∀ key video, videos s !! key = Some video → id video = key.

(** The service before its first use, on a database without records. *)
Definition empty_service : VideoStorageService := {| db := false; videos := ∅ |}.

(** One call on the service. *)
Inductive Op : Type :=
| OpInit
| OpSaveVideo (env : SaveEnv) (b : Blob)
| OpGetAllVideos
| OpGetVideo (key : string)
| OpMarkAsUploaded (key : string)
| OpDeleteVideo (key : string)
| OpGetStorageEstimate (estimate : option StorageEstimate).

(** The service after the call, whether it returned or threw. *)
Definition exec (op : Op) (s : VideoStorageService) : VideoStorageService :=
  match op with
  | OpInit => snd (init s)
  | OpSaveVideo env b => snd (saveVideo env b s)
  | OpGetAllVideos => snd (getAllVideos s)
  | OpGetVideo key => snd (getVideo key s)
  | OpMarkAsUploaded key => snd (markAsUploaded key s)
  | OpDeleteVideo key => snd (deleteVideo key s)
  | OpGetStorageEstimate estimate => snd (getStorageEstimate estimate s)
  end.

Definition exec_all (ops : list Op) (s : VideoStorageService) : VideoStorageService :=
  fold_left (fun s op => exec op s) ops s.

(** States the service can be in: any run of calls from the empty one. *)
Inductive reachable : VideoStorageService → Prop :=
| reachable_empty : reachable empty_service
| reachable_exec op s : reachable s → reachable (exec op s).

(** Does the character occur in the string? *)
Fixpoint has_char (c : ascii) (s : string) : bool :=
  match s with
  | EmptyString => false
  | String c' s' => if Ascii.eqb c' c then true else has_char c s'
  end.

(** A recording and an environment to run the store on. *)
Definition sample_blob : Blob :=
  {| bytes := [x1a; x45; xdf; xa3];
     type := "video/webm" |}.

Definition sample_env : SaveEnv :=
  {| now_id := 1704567890123;
     now_timestamp := 1704567890124;
     random36 := "0.4fzyo82mvyr";
     isoString := "2024-01-06T18:51:30.123Z" |}.

Definition sample_id : string := "video_1704567890123_4fzyo82mv".

(** The service after [saveVideo] of the sample on an empty database. *)
Definition sample_service : VideoStorageService :=
  snd (saveVideo sample_env sample_blob empty_service).

End StoreModel.

Module UploadModel.

Import VideoStorage UploadService.

(** An observer that updates a state of its own and cannot throw, as
    [setUploadProgress] does. *)
Definition observes {S} (g : UploadProgress.t → S → S) : Observer S :=
  fun p => modify (g p).

(** The state of such an observer after a sequence of notifications. *)
Definition observe_all {S} (g : UploadProgress.t → S → S)
  (notifications : list UploadProgress.t) (s : S) : S :=
  fold_left (fun s p => g p s) notifications s.

Definition percents (notifications : list UploadProgress.t) : list Z :=
  map UploadProgress.progress notifications.

Definition terminal_count (notifications : list UploadProgress.t) : nat :=
  length (filter (fun p => is_terminal p = true) notifications).

(** The status that a terminal notification has for an outcome. *)
Definition status_of (result : UploadResult.t) : UploadStatus :=
  if UploadResult.success result then success else failed.

(** A terminal notification with the percent that goes with its status. *)
Definition terminal_percent (p : UploadProgress.t) : Prop :=
  (UploadProgress.status p = success ∧ UploadProgress.progress p = 100) ∨
  (UploadProgress.status p = failed ∧ UploadProgress.progress p = 0).

End UploadModel.

Module PageModel.

Import VideoStorage UploadService Page StoreModel.

(** What one call of [setUploadProgress] does to the state. *)
Definition progress_update (p : UploadProgress.t) (st : State) : State :=
  with_uploadProgress p (with_trace (trace st ++ [SetUploadProgress p]) st).

(** The first update of [handleUpload]. *)
Definition starting_progress : UploadProgress.t :=
  {| UploadProgress.status := uploading;
     UploadProgress.progress := 0;
     UploadProgress.message := "Starting upload..." |}.

(** The call on [uploadService] that a mode stands for. *)
Definition call_event (mode : UploadMode) (b : Blob) : Event :=
  match mode with
  | Mock _ _ => CallMockUpload b
  | Real _ => CallRealUpload b
  | ForceFail => CallForceFailUpload
  end.

(** The state when the strategy returns: the first update, the call, and
    the updates for the notifications of the strategy. *)
Definition after_strategy (b : Blob) (st : State) : State :=
  let st0 := progress_update starting_progress st in
  UploadModel.observe_all progress_update (delivered (uploadMode st) b)
    (with_trace (trace st0 ++ [call_event (uploadMode st) b]) st0).

(** The page over a given service, before any upload. *)
Definition page_over (service : VideoStorageService) (mode : UploadMode) : State :=
  {| storage := service;
     uploadProgress := idle_progress;
     storedVideos := (map_to_list (videos service)).*2;
     uploadMode := mode;
     trace := [] |}.

End PageModel.

Module StoreCalls.

Import VideoStorage StoreModel.

(** What a call on the service resolves to. *)
Inductive Answer : Type :=
| Done
| NewId (key : string)
| Videos (videos : list StoredVideo)
| Video (video : option StoredVideo)
| Estimate (usage quota : Z).

(** The call that an [Op] stands for, with its answer. *)
Definition call (op : Op) : Storage Answer :=
  match op with
  | OpInit => init ;; ret Done
  | OpSaveVideo env b => key <- saveVideo env b ;; ret (NewId key)
  | OpGetAllVideos => videos <- getAllVideos ;; ret (Videos videos)
  | OpGetVideo key => video <- getVideo key ;; ret (Video video)
  | OpMarkAsUploaded key => markAsUploaded key ;; ret Done
  | OpDeleteVideo key => deleteVideo key ;; ret Done
  | OpGetStorageEstimate estimate =>
      e <- getStorageEstimate estimate ;; ret (Estimate (fst e) (snd e))
  end.

(** The list that [getAllVideos] resolves to. *)
Definition listing (s : VideoStorageService) : list StoredVideo :=
  (map_to_list (videos s)).*2.

End StoreCalls.

Module RecorderModel.

Import VideoStorage VideoRecorder StoreModel.

(** What the browser delivers while a recording runs. *)
Inductive RecorderEvent : Type :=
| DataAvailable (data : Blob)
| Tick.

Definition deliver (e : RecorderEvent) : Recorder unit :=
  match e with
  | DataAvailable data => ondataavailable data
  | Tick => tick
  end.

Fixpoint deliver_all (events : list RecorderEvent) : Recorder unit :=
  match events with
  | [] => ret tt
  | e :: rest => deliver e ;; deliver_all rest
  end.

Definition data_of (events : list RecorderEvent) : list Blob :=
  omap (fun e => match e with DataAvailable data => Some data | Tick => None end) events.

Fixpoint ticks_of (events : list RecorderEvent) : Z :=
  match events with
  | [] => 0
  | Tick :: rest => ticks_of rest + 1
  | DataAvailable _ :: rest => ticks_of rest
  end.

(** Two states of the hook that differ at most in [duration] and in the
    chunks. *)
Definition same_session (h h' : Hook) : Prop :=
  recordingState h' = recordingState h ∧
  recordedVideoId h' = recordedVideoId h ∧
  recordedVideoUrl h' = recordedVideoUrl h ∧
  error h' = error h ∧
  mediaRecorderRef h' = mediaRecorderRef h ∧
  streamRef h' = streamRef h ∧
  durationIntervalRef h' = durationIntervalRef h.

(** The MIME type that [startRecording] picks. *)
Definition chosen_mime (env : StartEnv) : string :=
  if vp9 env then "video/webm; codecs=vp9" else "video/webm".

(** A whole session: start, what the browser delivers while it records,
    stop, what the browser still delivers (the data it held back, and
    ticks of the timer), and the [stop] event. *)
Definition session (start : StartEnv) (events flushed : list RecorderEvent)
  (stop : StopEnv) : Recorder unit :=
  startRecording start ;;
  deliver_all events ;;
  stopRecording ;;
  deliver_all flushed ;;
  onstop (chosen_mime start) stop.

(** The hook before its first use, over a given service, with no stream
    live and no timer armed. *)
Definition fresh_world (s : VideoStorageService) : World :=
  {| hook := initial_hook; service := s; live := ∅; intervals := 0; revoked := [] |}.

(** A browser that grants the camera as stream 1. *)
Definition granting : StartEnv :=
  {| userMedia := inr 1%nat; vp9 := true; construct_throws := None; start_throws := None |}.

Definition denying : StartEnv :=
  {| userMedia := inl (JsError "NotAllowedError" "Permission denied");
     vp9 := true; construct_throws := None; start_throws := None |}.

Definition sample_stop : StopEnv :=
  {| save_env := sample_env; objectUrl := "blob:http://localhost:3000/0a1b2c" |}.

Definition sample_flushed : list RecorderEvent :=
  [ DataAvailable {| bytes := [x42]; type := "video/webm" |} ].

Definition sample_events : list RecorderEvent :=
  [ DataAvailable {| bytes := [x1a; x45]; type := "video/webm" |};
    Tick;
    DataAvailable {| bytes := []; type := "video/webm" |};
    Tick;
    DataAvailable {| bytes := [xdf; xa3]; type := "video/webm" |} ].

End RecorderModel.

Module PageActions.

Import VideoStorage UploadService Page StoreModel StoreCalls.

(** What the user can do on the page, as far as the handlers above go. *)
Inductive Action : Type :=
| Upload (videoId : string) (b : Blob)
| Delete (videoId : string)
| Refresh
| SelectMode (mode : UploadMode)
| ResetProgress
| ClickUploadButton (recordedVideoId : string)
| ClickListUpload (video : StoredVideo).

(** The state after the handler of an action, however it ended. *)
Definition perform (a : Action) (st : State) : State :=
  match a with
  | Upload videoId b => snd (handleUpload videoId b st)
  | Delete videoId => snd (handleDelete videoId st)
  | Refresh => snd (loadStoredVideos st)
  | SelectMode mode => snd (setUploadMode mode st)
  | ResetProgress => snd (resetUploadProgress st)
  | ClickUploadButton recordedVideoId => snd (uploadButton_onClick recordedVideoId st)
  | ClickListUpload video => snd (storedVideo_onClick video st)
  end.

Definition perform_all (actions : list Action) (st : State) : State :=
  fold_left (fun st a => perform a st) actions st.

(** The list on the page shows what the store holds. *)
Definition in_sync (st : State) : Prop :=
  storedVideos st = listing (storage st).

End PageActions.

(** * Properties *)

(** ** Loops *)

Module LoopFacts.

(** The fuel of [for_upto] is enough: a loop with a positive step whose
    body returns ends by its own test. *)
Lemma for_loop_returns {S} (body : Z → M S unit) (limit step : Z) :
  0 < step →
  (∀ i s, ∃ s', body i s = (Ok tt, s')) →
  ∀ fuel i s,
    (limit - i) / step + 1 ≤ Z.of_nat fuel →
    ∃ s', for_loop fuel i limit step body s = (Ok tt, s').
Proof.
  intros Hstep Hbody fuel.
  induction fuel as [ | fuel IH ]; intros i s Hfuel; cbn [for_loop].
  - destruct (Z.leb_spec i limit) as [ Hle | Hgt ]; [ | eexists; reflexivity ].
    assert (0 ≤ (limit - i) / step) by (apply Z.div_pos; lia). lia.
  - destruct (Z.leb_spec i limit) as [ Hle | Hgt ]; [ | eexists; reflexivity ].
    unfold bind. destruct (Hbody i s) as (s1 & ->).
    apply IH.
    replace (limit - (i + step)) with ((limit - i) + (-1) * step) by lia.
    rewrite Z.div_add by lia. lia.
Qed.

Lemma for_upto_returns {S} (body : Z → M S unit) (start limit step : Z) s :
  0 < step →
  (∀ i s, ∃ s', body i s = (Ok tt, s')) →
  ∃ s', for_upto start limit step body s = (Ok tt, s').
Proof.
  intros Hstep Hbody. unfold for_upto.
  apply for_loop_returns; [ assumption .. | ].
  destruct (Z.le_gt_cases 0 ((limit - start) / step + 1)); lia.
Qed.

End LoopFacts.

(** ** The store *)

Module VideoStorageFacts.

Import VideoStorage StoreModel.

Lemma with_db_videos b s : videos (with_db b s) = videos s.
Proof. reflexivity. Qed.

Lemma ensure_init_run s : ensure_init s = (Ok tt, with_db true s).
Proof. destruct s as [[] m]; reflexivity. Qed.

Lemma getVideo_run key s :
  getVideo key s = (Ok (videos s !! key), with_db true s).
Proof. unfold getVideo, bind. rewrite ensure_init_run. reflexivity. Qed.

Lemma getAllVideos_run s :
  getAllVideos s = (Ok ((map_to_list (videos s)).*2), with_db true s).
Proof. unfold getAllVideos, bind. rewrite ensure_init_run. reflexivity. Qed.

Lemma deleteVideo_run key s :
  deleteVideo key s = (Ok tt, with_videos (delete key (videos s)) (with_db true s)).
Proof. unfold deleteVideo, bind. rewrite ensure_init_run. reflexivity. Qed.

(** [getStorageEstimate] does not touch the service. *)
Lemma getStorageEstimate_state estimate s : snd (getStorageEstimate estimate s) = s.
Proof. destruct estimate; reflexivity. Qed.

Lemma saveVideo_run env b s :
  saveVideo env b s =
  match videos s !! id (new_video env b) with
  | Some _ => (Throw ConstraintError, with_db true s)
  | None =>
      (Ok (id (new_video env b)),
       with_videos (<[id (new_video env b) := new_video env b]> (videos s))
         (with_db true s))
  end.
Proof.
  unfold saveVideo, bind. rewrite ensure_init_run.
  unfold store_add, bind, get_state. rewrite with_db_videos.
  destruct (videos s !! id (new_video env b)); reflexivity.
Qed.

Lemma markAsUploaded_run key s :
  markAsUploaded key s =
  match videos s !! key with
  | None => (Throw NotFound, with_db true s)
  | Some video =>
      (Ok tt,
       with_videos (<[id video := set_uploaded video]> (videos s)) (with_db true s))
  end.
Proof.
  unfold markAsUploaded, bind. rewrite ensure_init_run, getVideo_run.
  rewrite with_db_videos. destruct (videos s !! key); reflexivity.
Qed.

(** *** The key-path invariant *)

Lemma keyed_with_db b s : keyed s → keyed (with_db b s).
Proof. intros H key video. apply H. Qed.

Lemma keyed_insert s video :
  keyed s → keyed (with_videos (<[id video := video]> (videos s)) s).
Proof.
  intros H key video'. cbn. rewrite lookup_insert.
  case_decide; [ intros [= <-]; assumption | apply H ].
Qed.

Lemma keyed_delete s key : keyed s → keyed (with_videos (delete key (videos s)) s).
Proof.
  intros H key' video. cbn. rewrite lookup_delete.
  case_decide; [ discriminate | apply H ].
Qed.

Lemma exec_keyed op s : keyed s → keyed (exec op s).
Proof.
  intros H. destruct op as [ | env b | | key | key | key | estimate ]; cbn.
  - apply keyed_with_db, H.
  - rewrite saveVideo_run.
    destruct (videos s !! id (new_video env b)); cbn.
    + apply keyed_with_db, H.
    + apply (keyed_insert (with_db true s)), keyed_with_db, H.
  - rewrite getAllVideos_run. apply keyed_with_db, H.
  - rewrite getVideo_run. apply keyed_with_db, H.
  - rewrite markAsUploaded_run.
    destruct (videos s !! key) as [video|] eqn:E; cbn.
    + apply (keyed_insert (with_db true s) (set_uploaded video)), keyed_with_db, H.
    + apply keyed_with_db, H.
  - rewrite deleteVideo_run. apply (keyed_delete (with_db true s)), keyed_with_db, H.
  - rewrite getStorageEstimate_state. exact H.
Qed.

Lemma reachable_keyed s : reachable s → keyed s.
Proof.
  induction 1 as [ | op s _ IH ].
  - intros key video. cbn. rewrite lookup_empty. discriminate.
  - apply exec_keyed, IH.
Qed.

(** *** Create, then get *)

(** C2. A record created from a payload [P] and fetched by the id that
    [saveVideo] returned carries exactly [P]: the same bytes and the same
    type. *)
Theorem saveVideo_getVideo_roundtrip env (P : Blob) s key s' :
  saveVideo env P s = (Ok key, s') →
  ∃ video,
    getVideo key s' = (Ok (Some video), s') ∧
    blob video = P ∧ bytes (blob video) = bytes P.
Proof.
  rewrite saveVideo_run.
  destruct (videos s !! id (new_video env P)) eqn:Hfresh; [ discriminate | ].
  intros [= <- <-]. exists (new_video env P).
  rewrite getVideo_run. cbn. rewrite lookup_insert_eq. auto.
Qed.

Lemma saveVideo_getVideo_roundtrip_witness :
  ∃ video,
    getVideo sample_id sample_service = (Ok (Some video), sample_service) ∧
    blob video = sample_blob ∧ bytes (blob video) = bytes sample_blob.
Proof.
  apply (saveVideo_getVideo_roundtrip sample_env sample_blob empty_service).
  vm_compute. reflexivity.
Defined.

(** [saveVideo] does return an id whenever the id it generates is not in
    the store yet. *)
Lemma saveVideo_returns env b s :
  videos s !! make_id (now_id env) (random36 env) = None →
  ∃ s', saveVideo env b s = (Ok (make_id (now_id env) (random36 env)), s').
Proof.
  intros Hfresh. rewrite saveVideo_run. cbn. rewrite Hfresh. eauto.
Qed.

Lemma sample_service_reachable : reachable sample_service.
Proof.
  exact (reachable_exec (OpSaveVideo sample_env sample_blob) _ reachable_empty).
Qed.

Lemma sample_service_lookup :
  videos sample_service !! sample_id = Some (new_video sample_env sample_blob).
Proof. vm_compute. reflexivity. Qed.

(** *** markAsUploaded *)

Lemma set_uploaded_idem video : set_uploaded (set_uploaded video) = set_uploaded video.
Proof. reflexivity. Qed.

(** C3. [markAsUploaded] throws the not-found error when no record has
    the id, leaving the records as they are.  When the record exists the
    first call sets its flag, and a second call returns without error and
    changes nothing. *)
Theorem markAsUploaded_NotFound_or_idempotent s key :
  (videos s !! key = None →
   markAsUploaded key s = (Throw NotFound, with_db true s)) ∧
  (∀ video, keyed s → videos s !! key = Some video →
   ∃ s1,
     markAsUploaded key s = (Ok tt, s1) ∧
     videos s1 !! key = Some (set_uploaded video) ∧
     uploaded (set_uploaded video) = true ∧
     markAsUploaded key s1 = (Ok tt, s1)).
Proof.
  split.
  - intros Hnone. rewrite markAsUploaded_run, Hnone. reflexivity.
  - intros video Hkeyed Hsome.
    pose proof (Hkeyed _ _ Hsome) as Hid.
    set (s1 := with_videos (<[key := set_uploaded video]> (videos s)) (with_db true s)).
    assert (Hs1 : videos s1 !! key = Some (set_uploaded video))
      by apply lookup_insert_eq.
    exists s1. split; [ rewrite markAsUploaded_run, Hsome, Hid; reflexivity | ].
    split; [ exact Hs1 | split; [ reflexivity | ] ].
    rewrite markAsUploaded_run, Hs1. unfold s1. cbn.
    rewrite Hid, insert_insert_eq. reflexivity.
Qed.

Lemma markAsUploaded_NotFound_or_idempotent_witness :
  markAsUploaded "video_0_gone" empty_service
    = (Throw NotFound, with_db true empty_service) ∧
  ∃ s1,
    markAsUploaded sample_id sample_service = (Ok tt, s1) ∧
    videos s1 !! sample_id = Some (set_uploaded (new_video sample_env sample_blob)) ∧
    uploaded (set_uploaded (new_video sample_env sample_blob)) = true ∧
    markAsUploaded sample_id s1 = (Ok tt, s1).
Proof.
  split.
  - apply (proj1 (markAsUploaded_NotFound_or_idempotent empty_service "video_0_gone")).
    vm_compute. reflexivity.
  - apply (proj2 (markAsUploaded_NotFound_or_idempotent sample_service sample_id)).
    + apply reachable_keyed, sample_service_reachable.
    + vm_compute. reflexivity.
Defined.

(** *** deleteVideo *)

(** C4, as the claim states it, fails: deleting an id that has no record
    returns normally instead of throwing the not-found error. *)
Lemma deleteVideo_absent_returns :
  videos empty_service !! "video_0_gone" = None ∧
  fst (deleteVideo "video_0_gone" empty_service) = Ok tt ∧
  fst (deleteVideo "video_0_gone" empty_service) ≠ Throw NotFound.
Proof. vm_compute. repeat split; discriminate. Qed.

(** C4, amended. [deleteVideo] always returns without error.  Afterwards
    no record has the id, [getVideo] finds nothing, and records under
    other ids are as before.  On an id without a record the records are
    left as they are, so deleting again neither fails nor brings the
    record back. *)
Theorem deleteVideo_removes_silently s key :
  ∃ s',
    deleteVideo key s = (Ok tt, s') ∧
    videos s' !! key = None ∧
    getVideo key s' = (Ok None, s') ∧
    (∀ other, other ≠ key → videos s' !! other = videos s !! other) ∧
    (videos s !! key = None → videos s' = videos s) ∧
    deleteVideo key s' = (Ok tt, s').
Proof.
  set (s' := with_videos (delete key (videos s)) (with_db true s)).
  assert (Hgone : videos s' !! key = None) by apply lookup_delete_eq.
  exists s'. split; [ apply deleteVideo_run | ].
  split; [ exact Hgone | ].
  split; [ rewrite getVideo_run, Hgone; reflexivity | ].
  split; [ intros other Hne; apply lookup_delete_ne; congruence | ].
  split; [ apply delete_id | ].
  rewrite deleteVideo_run. unfold s'. cbn. rewrite delete_delete_eq. reflexivity.
Qed.

Lemma deleteVideo_removes_silently_witness :
  ∃ s',
    deleteVideo "video_0_gone" empty_service = (Ok tt, s') ∧
    videos s' = videos empty_service ∧
    deleteVideo "video_0_gone" s' = (Ok tt, s').
Proof.
  destruct (deleteVideo_removes_silently empty_service "video_0_gone")
    as (s' & Hrun & _ & _ & _ & Hsame & Hagain).
  exists s'. split; [ exact Hrun | split; [ | exact Hagain ] ].
  apply Hsame. vm_compute. reflexivity.
Defined.

(** A deleted record stays away: no call other than a new [saveVideo]
    puts a record under an id that has none. *)
Lemma absent_stays_absent ops s key :
  keyed s → videos s !! key = None →
  Forall (λ op, ∀ env b, op ≠ OpSaveVideo env b) ops →
  videos (exec_all ops s) !! key = None.
Proof.
  intros Hkeyed Hnone Hops. revert s Hkeyed Hnone.
  induction Hops as [ | op ops Hop _ IH ]; intros s Hkeyed Hnone; [ exact Hnone | ].
  cbn. apply IH; [ apply exec_keyed, Hkeyed | ].
  destruct op as [ | env b | | k | k | k | estimate ]; cbn.
  - exact Hnone.
  - destruct (Hop env b eq_refl).
  - rewrite getAllVideos_run. exact Hnone.
  - rewrite getVideo_run. exact Hnone.
  - rewrite markAsUploaded_run.
    destruct (videos s !! k) as [video|] eqn:E; cbn; [ | exact Hnone ].
    rewrite lookup_insert_ne; [ exact Hnone | ].
    rewrite (Hkeyed _ _ E). congruence.
  - rewrite deleteVideo_run. cbn. rewrite lookup_delete.
    case_decide; [ reflexivity | exact Hnone ].
  - rewrite getStorageEstimate_state. exact Hnone.
Qed.

(** *** Generated ids *)

Lemma split_head_app sep s rest :
  has_char sep s = false → split_head sep (s +:+ String sep rest) = s.
Proof.
  induction s as [ | c s IH ]; simpl.
  - rewrite Ascii.eqb_refl. reflexivity.
  - destruct (Ascii.eqb c sep); [ discriminate | ].
    intros H. rewrite (IH H). reflexivity.
Qed.

Lemma pretty_N_char_not_underscore n : Ascii.eqb (pretty_N_char n) "_" = false.
Proof. unfold pretty_N_char. repeat case_match; reflexivity. Qed.

Lemma has_char_pretty_N_go n s :
  has_char "_" s = false → has_char "_" (pretty_N_go n s) = false.
Proof.
  revert s. induction (N.lt_wf_0 n) as [n _ IH]. intros s Hs.
  destruct (decide (n = 0)%N) as [-> | Hpos].
  - rewrite pretty_N_go_0. exact Hs.
  - rewrite pretty_N_go_step by lia.
    apply IH; [ apply N.div_lt; lia | ].
    cbn [has_char]. rewrite pretty_N_char_not_underscore. exact Hs.
Qed.

Lemma has_char_pretty_positive (p : positive) : has_char "_" (pretty p) = false.
Proof.
  unfold pretty, pretty_positive, pretty, pretty_N.
  case_decide; [ discriminate | ]. apply has_char_pretty_N_go. reflexivity.
Qed.

(** The decimal rendering of an integer has no underscore. *)
Lemma has_char_pretty_Z (z : Z) : has_char "_" (pretty z) = false.
Proof.
  destruct z as [ | p | p ]; unfold pretty, pretty_Z.
  - reflexivity.
  - apply has_char_pretty_positive.
  - cbn. apply has_char_pretty_positive.
Qed.

(** Ids made from different clock readings differ, whatever the random
    parts are. *)
Lemma make_id_inj_time now1 random1 now2 random2 :
  make_id now1 random1 = make_id now2 random2 → now1 = now2.
Proof.
  intros H.
  change (String "v" (String "i" (String "d" (String "e" (String "o" (String "_"
            (pretty now1 +:+ String "_" (substring 2 9 random1)))))))
          = String "v" (String "i" (String "d" (String "e" (String "o" (String "_"
            (pretty now2 +:+ String "_" (substring 2 9 random2)))))))) in H.
  injection H as H.
  apply (f_equal (split_head "_")) in H.
  rewrite !split_head_app in H by apply has_char_pretty_Z.
  apply (inj pretty), H.
Qed.

(** C8, as the claim states it, fails.  The id that [saveVideo] builds is
    not always fresh, and then nothing is persisted and no id is returned:
    on a store that holds the sample record, a [saveVideo] that reads the
    same clock and the same random number is refused by [add] and leaves
    the records as they are.  And two records whose times of creation
    differ can be given the same id: the clock is read once for the id and
    once more for [timestamp], so the second reading can differ where the
    first and the random suffix do not. *)
Lemma saveVideo_id_can_be_taken :
  let later :=
    {| now_id := 1704567890123; now_timestamp := 1704567890125;
       random36 := "0.4fzyo82mvyr"; isoString := "2024-01-06T18:51:30.125Z" |} in
  is_Some (videos sample_service !! id (new_video sample_env sample_blob)) ∧
  fst (saveVideo sample_env sample_blob sample_service) = Throw ConstraintError ∧
  videos (snd (saveVideo sample_env sample_blob sample_service)) = videos sample_service ∧
  timestamp (new_video later sample_blob) ≠ timestamp (new_video sample_env sample_blob) ∧
  id (new_video later sample_blob) = id (new_video sample_env sample_blob).
Proof.
  cbv zeta.
  split; [ exists (new_video sample_env sample_blob); exact sample_service_lookup | ].
  split; [ vm_compute; reflexivity | ].
  split; [ vm_compute; reflexivity | ].
  split; [ vm_compute; discriminate | vm_compute; reflexivity ].
Qed.

(** C8, amended.  [saveVideo] makes its id from the clock reading and a
    random suffix, with no check that the id is free.  When no record has
    that id it stores a record with that id, the payload,
    [uploaded = false] and the clock reading taken for [timestamp], and
    returns the id; when the id is taken the [add] is refused, nothing is
    stored and no id is returned.  Ids made from different clock readings
    are different. *)
Theorem saveVideo_creates_fresh_record env b s :
  let video := new_video env b in
  id video = "video_" +:+ pretty (now_id env) +:+ "_" +:+ substring 2 9 (random36 env) ∧
  blob video = b ∧ uploaded video = false ∧ timestamp video = now_timestamp env ∧
  (videos s !! id video = None →
   saveVideo env b s
   = (Ok (id video), with_videos (<[id video := video]> (videos s)) (with_db true s))) ∧
  (is_Some (videos s !! id video) →
   saveVideo env b s = (Throw ConstraintError, with_db true s)) ∧
  (∀ env' b', now_id env' ≠ now_id env → id (new_video env' b') ≠ id video).
Proof.
  cbv zeta. repeat (split; [ reflexivity | ]).
  split; [ | split ].
  - intros Hfresh. rewrite saveVideo_run, Hfresh. reflexivity.
  - intros [old Hold]. rewrite saveVideo_run, Hold. reflexivity.
  - intros env' b' Hne Heq. apply Hne. exact (make_id_inj_time _ _ _ _ Heq).
Qed.

Lemma saveVideo_creates_fresh_record_witness :
  saveVideo sample_env sample_blob empty_service
  = (Ok sample_id,
     with_videos (<[sample_id := new_video sample_env sample_blob]> ∅)
       (with_db true empty_service)) ∧
  saveVideo sample_env sample_blob sample_service
  = (Throw ConstraintError, with_db true sample_service) ∧
  id (new_video
        {| now_id := 1704567890124; now_timestamp := 1704567890124;
           random36 := "0.4fzyo82mvyr"; isoString := "2024-01-06T18:51:30.124Z" |}
        sample_blob)
  ≠ sample_id.
Proof.
  pose proof (saveVideo_creates_fresh_record sample_env sample_blob empty_service)
    as (_ & _ & _ & _ & Hnew & _ & Hdistinct).
  pose proof (saveVideo_creates_fresh_record sample_env sample_blob sample_service)
    as (_ & _ & _ & _ & _ & Htaken & _).
  split; [ apply Hnew; vm_compute; reflexivity | ].
  split; [ apply Htaken; vm_compute; eexists; reflexivity | ].
  apply Hdistinct. vm_compute. discriminate.
Defined.

(** Two records created one after the other in the same store never share
    an id, whatever the clock and the random source gave. *)
Lemma saveVideo_twice_distinct env1 b1 env2 b2 s id1 s1 id2 s2 :
  saveVideo env1 b1 s = (Ok id1, s1) →
  saveVideo env2 b2 s1 = (Ok id2, s2) →
  id1 ≠ id2.
Proof.
  rewrite !saveVideo_run.
  generalize (new_video env1 b1) (new_video env2 b2). intros v1 v2.
  destruct (videos s !! id v1); [ discriminate | ].
  intros [= Hid1 Hs1]. subst id1 s1. cbn [videos with_videos with_db].
  destruct (_ !! id v2) eqn:E; [ discriminate | ].
  intros [= Hid2 _] Heq. subst id2.
  rewrite <- Heq, lookup_insert_eq in E. discriminate.
Qed.

(** *** Write-once payload, one-way flag *)

(** C9. A call on the store leaves the record under an id in place with
    the same payload, timestamp, file name and id, unless the call deletes
    that id; a flag that is set stays set.  [markAsUploaded] of the id
    writes back the record it read with only [uploaded] changed, and every
    other call leaves the record exactly as it was. *)
Theorem store_calls_preserve_payload op s key video :
  keyed s → videos s !! key = Some video →
  match videos (exec op s) !! key with
  | None => op = OpDeleteVideo key
  | Some video' =>
      blob video' = blob video ∧ timestamp video' = timestamp video ∧
      fileName video' = fileName video ∧ id video' = id video ∧
      (uploaded video = true → uploaded video' = true) ∧
      (op = OpMarkAsUploaded key → video' = set_uploaded video) ∧
      (op ≠ OpMarkAsUploaded key → video' = video)
  end.
Proof.
  intros Hkeyed Hsome.
  destruct op as [ | env b | | k | k | k | estimate ]; cbn [exec].
  - cbn. rewrite Hsome. repeat split; congruence.
  - rewrite saveVideo_run.
    destruct (videos s !! id (new_video env b)) eqn:E; cbn [snd videos with_videos with_db].
    + rewrite Hsome. repeat split; congruence.
    + rewrite lookup_insert_ne by congruence.
      rewrite Hsome. repeat split; congruence.
  - rewrite getAllVideos_run. cbn. rewrite Hsome. repeat split; congruence.
  - rewrite getVideo_run. cbn. rewrite Hsome. repeat split; congruence.
  - rewrite markAsUploaded_run.
    destruct (videos s !! k) as [other|] eqn:E; cbn [snd videos with_videos with_db].
    + rewrite (Hkeyed _ _ E), lookup_insert. case_decide as Hk.
      * subst k. assert (other = video) as -> by congruence.
        repeat split; congruence.
      * rewrite Hsome. repeat split; congruence.
    + rewrite Hsome. destruct (decide (k = key)) as [-> | Hk]; [ congruence | ].
      repeat split; congruence.
  - rewrite deleteVideo_run. cbn [snd videos with_videos with_db].
    rewrite lookup_delete. case_decide as Hk; [ congruence | ].
    rewrite Hsome. repeat split; congruence.
  - rewrite getStorageEstimate_state, Hsome. repeat split; congruence.
Qed.

Lemma store_calls_preserve_payload_witness :
  match videos (exec (OpMarkAsUploaded sample_id) sample_service) !! sample_id with
  | None => OpMarkAsUploaded sample_id = OpDeleteVideo sample_id
  | Some video' =>
      let video := new_video sample_env sample_blob in
      blob video' = blob video ∧ timestamp video' = timestamp video ∧
      fileName video' = fileName video ∧ id video' = id video ∧
      (uploaded video = true → uploaded video' = true) ∧
      (OpMarkAsUploaded sample_id = OpMarkAsUploaded sample_id →
       video' = set_uploaded video) ∧
      (OpMarkAsUploaded sample_id ≠ OpMarkAsUploaded sample_id → video' = video)
  end.
Proof.
  apply (store_calls_preserve_payload (OpMarkAsUploaded sample_id) sample_service
           sample_id (new_video sample_env sample_blob)).
  - apply reachable_keyed, sample_service_reachable.
  - vm_compute. reflexivity.
Defined.

(** Over any run of calls that does not delete the id, the record keeps
    its payload, and its flag never goes back to [false]. *)
Lemma payload_write_once ops s key video :
  keyed s → videos s !! key = Some video →
  Forall (λ op, op ≠ OpDeleteVideo key) ops →
  ∃ video',
    videos (exec_all ops s) !! key = Some video' ∧
    blob video' = blob video ∧ timestamp video' = timestamp video ∧
    fileName video' = fileName video ∧
    (uploaded video = true → uploaded video' = true).
Proof.
  intros Hkeyed Hsome Hops. revert s video Hkeyed Hsome.
  induction Hops as [ | op ops Hop _ IH ]; intros s video Hkeyed Hsome.
  - exists video. auto.
  - pose proof (store_calls_preserve_payload op s key video Hkeyed Hsome) as Hstep.
    destruct (videos (exec op s) !! key) as [video1|] eqn:E; [ | contradiction ].
    destruct Hstep as (Hb & Ht & Hf & _ & Hu & _).
    destruct (IH (exec op s) video1 (exec_keyed op s Hkeyed) E)
      as (video' & Hlookup & Hb' & Ht' & Hf' & Hu').
    exists video'. cbn [exec_all fold_left]. split; [ exact Hlookup | ].
    repeat split; try congruence. auto.
Qed.

End VideoStorageFacts.

(** ** The upload strategies *)

Module UploadServiceFacts.

Import VideoStorage UploadService StoreModel UploadModel.

(** Case analysis on what the environment hands to a strategy. *)
Ltac environment_cases strategy :=
  destruct strategy as
    [ random now
    | [ e | [ [ | ] code text [ e | [ | flag | n | str | items | members ] ] ] ]
    | ];
  [ destruct (Qle_bool random (3 # 10)) eqn:Hrandom | .. ].

(** Every strategy returns an [UploadResult]: none throws, and the loops
    end by their own test. *)
Lemma attempt_returns strategy b : ∃ result, outcome strategy b = Ok result.
Proof.
  environment_cases strategy; unfold outcome, attempt, mockUpload;
    try rewrite Hrandom; eexists; reflexivity.
Qed.

(** Whatever state a non-throwing observer keeps, it is handed exactly
    the notifications of [delivered], in that order, and the call returns
    [outcome]. *)
Lemma attempt_observes {S} (g : UploadProgress.t → S → S) strategy b s :
  attempt strategy b (Some (observes g)) s
  = (outcome strategy b, observe_all g (delivered strategy b) s).
Proof.
  environment_cases strategy;
    unfold outcome, delivered, attempt, mockUpload;
    try rewrite Hrandom; reflexivity.
Qed.

(** *** Order of the percents *)

Lemma not_sorted_drop (a b : Z) (front : list Z) :
  b < a → ¬ Sorted Z.le (front ++ [a; b]).
Proof.
  intros Hlt. induction front as [ | x front IH ]; cbn; intros Hsorted.
  - apply Sorted_inv in Hsorted as [_ Hhd].
    apply HdRel_inv in Hhd. lia.
  - apply Sorted_inv in Hsorted as [Htail _]. exact (IH Htail).
Qed.

(** C6, as the claim states it, fails: the force-fail strategy reports
    0, 20, 40 and 60 percent and then a terminal notification with 0
    percent, so the percents are not non-decreasing up to and including
    the terminal one. *)
Lemma forceFail_percent_drops_at_terminal :
  percents (delivered ForceFail sample_blob) = [0; 20; 40; 60; 0] ∧
  ¬ Sorted Z.le (percents (delivered ForceFail sample_blob)).
Proof.
  assert (H : percents (delivered ForceFail sample_blob) = [0; 20; 40; 60; 0])
    by (vm_compute; reflexivity).
  split; [ exact H | ]. rewrite H.
  apply (not_sorted_drop 60 0 [0; 20; 40]). lia.
Qed.

(** Cut a sequence of notifications in front of its first terminal
    one. *)
Ltac split_at_terminal :=
  match goal with
  | |- ∃ ups terminals, ?l = _ ∧ _ =>
      let k := constr:(length (filter (λ p, is_terminal p = false) l)) in
      exists (take k l), (drop k l)
  end.

Ltac solve_shape :=
  repeat match goal with
    | |- _ ∧ _ => split
    | |- Forall _ _ => constructor
    | |- StronglySorted _ _ => constructor
    | |- Sorted _ _ => constructor
    | |- HdRel _ _ _ => constructor
    | |- terminal_percent _ => (left; split; reflexivity) || (right; split; reflexivity)
    | |- _ ≠ [] => discriminate
    | |- (_ <= _)%Z => cbn; lia
    | |- (_ < _)%Z => cbn; lia
    | |- _ = _ => reflexivity
    end.

(** C6, amended. The notifications of a call come as a run of
    [uploading] notifications, whose percents lie between 0 and 100 and
    increase strictly, followed by the terminal notifications; a terminal
    [success] carries 100 percent and a terminal [failed] carries 0
    percent.  When the call returns success the percents of the whole
    sequence are non-decreasing. *)
Theorem percents_increase_until_terminal strategy b :
  ∃ ups terminals,
    delivered strategy b = ups ++ terminals ∧
    Forall (λ p, UploadProgress.status p = uploading ∧
                 0 ≤ UploadProgress.progress p ≤ 100) ups ∧
    StronglySorted Z.lt (percents ups) ∧
    Forall terminal_percent terminals ∧
    terminals ≠ [] ∧
    (∀ result, outcome strategy b = Ok result →
       UploadResult.success result = true →
       Sorted Z.le (percents (delivered strategy b))).
Proof.
  environment_cases strategy;
    unfold outcome, delivered, attempt, mockUpload; try rewrite Hrandom;
    split_at_terminal;
    (repeat (split; [ solve [ solve_shape ] | ]));
    intros result Hreturned Hsuccess;
    try (injection Hreturned as <-; discriminate Hsuccess);
    solve_shape.
Qed.

Lemma percents_increase_until_terminal_witness :
  Sorted Z.le (percents (delivered (Mock (1 # 2) 1704567890123) sample_blob)).
Proof.
  destruct (percents_increase_until_terminal (Mock (1 # 2) 1704567890123) sample_blob)
    as (ups & terminals & _ & _ & _ & _ & _ & Hsorted).
  eapply Hsorted; [ vm_compute; reflexivity | reflexivity ].
Defined.

(** *** Terminal notifications *)

(** The last notification of a call is terminal and agrees with what the
    call returns. *)
Lemma final_status_matches_outcome strategy b :
  ∃ result earlier final,
    outcome strategy b = Ok result ∧
    delivered strategy b = earlier ++ [final] ∧
    UploadProgress.status final = status_of result.
Proof.
  environment_cases strategy;
    unfold outcome, delivered, attempt, mockUpload; try rewrite Hrandom;
    eexists; match goal with
             | |- ∃ earlier final, _ ∧ ?l = _ ∧ _ =>
                 exists (take (pred (length l)) l), (List.last l Page.idle_progress)
             end;
    repeat split; reflexivity.
Qed.

(** The simulated strategies emit one terminal notification per call. *)
Lemma simulated_terminal_exactly_once strategy b :
  (∀ answer, strategy ≠ Real answer) →
  terminal_count (delivered strategy b) = 1%nat.
Proof.
  intros Hsimulated.
  destruct strategy as [ random now | answer | ];
    [ | destruct (Hsimulated answer eq_refl) | reflexivity ].
  unfold delivered, attempt, mockUpload.
  destruct (Qle_bool random (3 # 10)); reflexivity.
Qed.

(** So does the remote strategy, unless the response has a success status
    and the JSON text [null] as its body. *)
Lemma realUpload_terminal_exactly_once answer b :
  (∀ code text,
     answer ≠ FetchResolves
                {| ok := true; http_status := code; statusText := text;
                   body := inr JNull |}) →
  terminal_count (delivered (Real answer) b) = 1%nat.
Proof.
  intros Hbody.
  destruct answer as [ e | [ [ | ] code text [ e | [ | flag | n | str | items | members ] ] ] ];
    try reflexivity.
  destruct (Hbody code text eq_refl).
Qed.

(** C7 fails on the remote strategy: when the response has a success
    status and its body is the JSON text [null], [realUpload] tells the
    observer [success] and then, because reading [result.url] throws inside
    the [try], [failed] as well.  The observer gets two terminal
    notifications in one call, and the call returns a failure. *)
Theorem realUpload_null_body_two_terminals code text b :
  let answer :=
    FetchResolves
      {| ok := true; http_status := code; statusText := text; body := inr JNull |} in
  map UploadProgress.status (delivered (Real answer) b) = [uploading; success; failed] ∧
  terminal_count (delivered (Real answer) b) = 2%nat ∧
  outcome (Real answer) b
  = Ok {| UploadResult.success := false;
          UploadResult.message :=
            "Upload failed: Cannot read properties of null (reading 'url')";
          UploadResult.uploadedUrl := None |}.
Proof. intros answer. split; [ reflexivity | split; reflexivity ]. Qed.

(** *** The force-fail strategy *)

(** What the force-fail strategy tells its observer, and what it
    returns. *)
Lemma forceFail_run b :
  delivered ForceFail b
  = [ {| UploadProgress.status := uploading; UploadProgress.progress := 0;
         UploadProgress.message := "Uploading... 0%" |};
      {| UploadProgress.status := uploading; UploadProgress.progress := 20;
         UploadProgress.message := "Uploading... 20%" |};
      {| UploadProgress.status := uploading; UploadProgress.progress := 40;
         UploadProgress.message := "Uploading... 40%" |};
      {| UploadProgress.status := uploading; UploadProgress.progress := 60;
         UploadProgress.message := "Uploading... 60%" |};
      {| UploadProgress.status := failed; UploadProgress.progress := 0;
         UploadProgress.message := "Network connection lost" |} ] ∧
  outcome ForceFail b
  = Ok {| UploadResult.success := false;
          UploadResult.message := "Network connection lost - Upload failed";
          UploadResult.uploadedUrl := None |}.
Proof. split; vm_compute; reflexivity. Qed.

End UploadServiceFacts.

(** ** The upload handlers *)

Module PageFacts.

Import VideoStorage UploadService Page StoreModel UploadModel PageModel.
Import VideoStorageFacts UploadServiceFacts.

Lemma setUploadProgress_observes : setUploadProgress = observes progress_update.
Proof. reflexivity. Qed.

(** Updates of the progress touch neither the store nor the list of
    videos nor the mode; each is appended to the trace. *)
Lemma observe_all_frame notifications st :
  let st' := observe_all progress_update notifications st in
  storage st' = storage st ∧ storedVideos st' = storedVideos st ∧
  uploadMode st' = uploadMode st ∧
  trace st' = trace st ++ map SetUploadProgress notifications.
Proof.
  revert st. induction notifications as [ | p rest IH ]; intros st; cbn.
  - rewrite app_nil_r. auto.
  - destruct (IH (progress_update p st)) as (Hs & Hv & Hm & Ht).
    unfold observe_all in *. rewrite Hs, Hv, Hm, Ht. cbn.
    rewrite <- app_assoc. auto.
Qed.

Lemma observe_all_last earlier final st :
  uploadProgress (observe_all progress_update (earlier ++ [final]) st) = final.
Proof. unfold observe_all. rewrite fold_left_app. reflexivity. Qed.

Lemma upload_by_mode_run b st :
  upload_by_mode b st
  = (outcome (uploadMode st) b,
     observe_all progress_update (delivered (uploadMode st) b)
       (with_trace (trace st ++ [call_event (uploadMode st) b]) st)).
Proof.
  unfold upload_by_mode. rewrite setUploadProgress_observes.
  unfold bind at 1. unfold get_state.
  destruct (uploadMode st) as [ random now | answer | ] eqn:Hmode;
    unfold bind, log, modify.
  - exact (attempt_observes progress_update (Mock random now) b _).
  - exact (attempt_observes progress_update (Real answer) b _).
  - exact (attempt_observes progress_update ForceFail b _).
Qed.

Lemma handleUpload_run videoId b st :
  handleUpload videoId b st
  = match outcome (uploadMode st) b with
    | Ok result => after_upload videoId result (after_strategy b st)
    | Throw e => (Throw e, after_strategy b st)
    | OutOfFuel => (OutOfFuel, after_strategy b st)
    end.
Proof.
  unfold handleUpload, bind at 1.
  change (setUploadProgress _ st) with (Ok tt, progress_update starting_progress st).
  cbv iota beta. unfold bind at 1. rewrite upload_by_mode_run.
  unfold after_strategy. cbn [uploadMode progress_update with_uploadProgress with_trace].
  destruct (outcome (uploadMode st) b); reflexivity.
Qed.

Lemma after_strategy_frame b st :
  storage (after_strategy b st) = storage st ∧
  storedVideos (after_strategy b st) = storedVideos st ∧
  uploadMode (after_strategy b st) = uploadMode st ∧
  trace (after_strategy b st)
  = trace st ++ SetUploadProgress starting_progress :: call_event (uploadMode st) b
      :: map SetUploadProgress (delivered (uploadMode st) b).
Proof.
  unfold after_strategy. cbv zeta.
  destruct (observe_all_frame (delivered (uploadMode st) b)
              (with_trace (trace (progress_update starting_progress st)
                             ++ [call_event (uploadMode st) b])
                 (progress_update starting_progress st))) as (Hs & Hv & Hm & Ht).
  rewrite Hs, Hv, Hm, Ht. cbn. rewrite <- !app_assoc. auto.
Qed.

(** When the strategy has returned, the progress shows the status that
    goes with its result. *)
Lemma after_strategy_status b st result :
  outcome (uploadMode st) b = Ok result →
  UploadProgress.status (uploadProgress (after_strategy b st)) = status_of result.
Proof.
  intros Hreturned.
  destruct (final_status_matches_outcome (uploadMode st) b)
    as (result' & earlier & final & Hreturned' & Hdelivered & Hfinal).
  assert (result' = result) as -> by congruence.
  unfold after_strategy. cbv zeta. rewrite Hdelivered, observe_all_last. exact Hfinal.
Qed.

Lemma loadStoredVideos_run st :
  loadStoredVideos st
  = (Ok tt,
     with_storedVideos ((map_to_list (videos (storage st))).*2)
       (with_storage (with_db true (storage st))
          (with_trace (trace st ++ [CallGetAllVideos]) st))).
Proof.
  unfold loadStoredVideos, try_catch, bind, videoStorage, bind, log, modify, zoom.
  cbn [storage with_trace]. rewrite getAllVideos_run. reflexivity.
Qed.

(** What [handleUpload] does with the result of the strategy: nothing at
    all for a failure; for a success, [markAsUploaded] and, when that
    returns, a reload of the list. *)
Lemma after_upload_run videoId result st :
  after_upload videoId result st
  = if UploadResult.success result then
      let st1 := with_trace (trace st ++ [CallMarkAsUploaded videoId]) st in
      match videos (storage st) !! videoId with
      | None => (Throw NotFound, with_storage (with_db true (storage st)) st1)
      | Some video =>
          loadStoredVideos
            (with_storage
               (with_videos (<[id video := set_uploaded video]> (videos (storage st)))
                  (with_db true (storage st))) st1)
      end
    else (Ok tt, st).
Proof.
  unfold after_upload. destruct (UploadResult.success result); [ | reflexivity ].
  unfold videoStorage, bind, log, modify, zoom. cbn [storage with_trace].
  rewrite markAsUploaded_run.
  destruct (videos (storage st) !! videoId); reflexivity.
Qed.

Lemma after_upload_trace videoId result st :
  ∃ events,
    trace (snd (after_upload videoId result st)) = trace st ++ events ∧
    (UploadResult.success result = false → events = []).
Proof.
  rewrite after_upload_run. destruct (UploadResult.success result).
  - cbv zeta. destruct (videos (storage st) !! videoId) as [video|].
    + rewrite loadStoredVideos_run. cbn.
      exists [CallMarkAsUploaded videoId; CallGetAllVideos].
      rewrite <- app_assoc. split; [ reflexivity | discriminate ].
    + exists [CallMarkAsUploaded videoId]. split; [ reflexivity | discriminate ].
  - exists []. cbn. rewrite app_nil_r. auto.
Qed.

Lemma not_in_progress_updates key notifications :
  ¬ In (CallMarkAsUploaded key) (map SetUploadProgress notifications).
Proof. rewrite in_map_iff. intros (p & Hp & _). discriminate Hp. Qed.

(** C1. An upload whose strategy returns a failure leaves the store as it
    was: [handleUpload] returns, the storage service and the list of
    videos are unchanged, so a record under the id is still there with the
    flag it had.  The progress ends on [failed], which leaves the upload
    buttons enabled for another attempt.  [markAsUploaded] is called only
    after a strategy has returned success. *)
Theorem failed_upload_leaves_store_untouched videoId b st :
  ∃ result events,
    outcome (uploadMode st) b = Ok result ∧
    trace (snd (handleUpload videoId b st)) = trace st ++ events ∧
    (∀ key, In (CallMarkAsUploaded key) events → UploadResult.success result = true) ∧
    (UploadResult.success result = false →
       fst (handleUpload videoId b st) = Ok tt ∧
       storage (snd (handleUpload videoId b st)) = storage st ∧
       storedVideos (snd (handleUpload videoId b st)) = storedVideos st ∧
       (∀ video, videos (storage st) !! videoId = Some video →
          fst (getVideo videoId (storage (snd (handleUpload videoId b st))))
          = Ok (Some video)) ∧
       UploadProgress.status (uploadProgress (snd (handleUpload videoId b st))) = failed ∧
       upload_disabled (snd (handleUpload videoId b st)) = false).
Proof.
  destruct (attempt_returns (uploadMode st) b) as (result & Hreturned).
  destruct (after_strategy_frame b st) as (Hs & Hv & Hm & Ht).
  destruct (after_upload_trace videoId result (after_strategy b st))
    as (events & Hevents & Hnone).
  rewrite handleUpload_run, Hreturned.
  exists result. eexists. split; [ reflexivity | ].
  split; [ rewrite Hevents, Ht, <- app_assoc; reflexivity | ].
  split.
  - intros key Hin. destruct (UploadResult.success result) eqn:E; [ reflexivity | ].
    rewrite (Hnone eq_refl), app_nil_r in Hin.
    destruct Hin as [ Hin | [ Hin | Hin ] ].
    + discriminate Hin.
    + destruct (uploadMode st); discriminate Hin.
    + destruct (not_in_progress_updates _ _ Hin).
  - intros Hfailed. rewrite after_upload_run, Hfailed. cbn [fst snd].
    assert (Hstatus : UploadProgress.status (uploadProgress (after_strategy b st)) = failed).
    { rewrite (after_strategy_status b st result Hreturned).
      unfold status_of. rewrite Hfailed. reflexivity. }
    rewrite Hs, Hv. repeat split; try assumption.
    + intros video Hsome. rewrite getVideo_run, Hsome. reflexivity.
    + unfold upload_disabled. rewrite Hstatus. reflexivity.
Qed.

Lemma failed_upload_leaves_store_untouched_witness :
  let st := page_over sample_service ForceFail in
  let st' := snd (handleUpload sample_id sample_blob st) in
  fst (handleUpload sample_id sample_blob st) = Ok tt ∧
  storage st' = storage st ∧
  storedVideos st' = storedVideos st ∧
  (∀ video, videos (storage st) !! sample_id = Some video →
     fst (getVideo sample_id (storage st')) = Ok (Some video)) ∧
  UploadProgress.status (uploadProgress st') = failed ∧
  upload_disabled st' = false.
Proof.
  destruct (failed_upload_leaves_store_untouched sample_id sample_blob
              (page_over sample_service ForceFail))
    as (result & events & Hreturned & _ & _ & Hfailed).
  apply Hfailed.
  vm_compute in Hreturned. injection Hreturned as <-. reflexivity.
Defined.

(** The trace only grows during [handleUpload], and the new events start
    with the first progress update and the call of the strategy. *)
Lemma handleUpload_trace videoId b st :
  ∃ events,
    trace (snd (handleUpload videoId b st))
    = trace st ++ SetUploadProgress starting_progress
        :: call_event (uploadMode st) b :: events.
Proof.
  destruct (attempt_returns (uploadMode st) b) as (result & Hreturned).
  destruct (after_strategy_frame b st) as (_ & _ & _ & Ht).
  destruct (after_upload_trace videoId result (after_strategy b st))
    as (events & Hevents & _).
  rewrite handleUpload_run, Hreturned, Hevents, Ht, <- app_assoc.
  eexists. reflexivity.
Qed.

Lemma not_awaited_state {A} (m : Handler A) st : snd (not_awaited m st) = snd (m st).
Proof. unfold not_awaited. destruct (m st) as [[ | | ] st']; reflexivity. Qed.

(** *** Fetching the record before the upload *)

(** C5, as the claim states it, fails.  On a store without the record,
    [handleUpload] does not look the record up and does not fail with the
    not-found error: it calls the strategy with the payload it was given
    and returns.  The upload button, which does look the record up first,
    returns without an error when the record is missing. *)
Lemma upload_of_missing_record_not_refused :
  let st := page_over empty_service ForceFail in
  videos (storage st) !! "video_0_gone" = None ∧
  fst (handleUpload "video_0_gone" sample_blob st) = Ok tt ∧
  In CallForceFailUpload (trace (snd (handleUpload "video_0_gone" sample_blob st))) ∧
  ¬ In (CallGetVideo "video_0_gone")
      (trace (snd (handleUpload "video_0_gone" sample_blob st))) ∧
  fst (uploadButton_onClick "video_0_gone" st) = Ok tt.
Proof.
  cbv zeta. split; [ vm_compute; reflexivity | ].
  split; [ vm_compute; reflexivity | ].
  split; [ vm_compute; auto | ].
  split; [ | vm_compute; reflexivity ].
  intros Hin. vm_compute in Hin.
  repeat (destruct Hin as [ Hin | Hin ]; [ discriminate Hin | ]).
  exact Hin.
Qed.

(** C5, amended. The upload button under the recorder fetches the record
    from the store by id before anything else.  When there is no such
    record the click ends there: it returns without an error, no progress
    is reported and no strategy is called.  When the record is found,
    [handleUpload] runs with the payload that the store returned.
    [handleUpload] itself, which the stored list calls with the payload of
    the listed record, starts the strategy without looking the record
    up. *)
Theorem uploadButton_fetches_record_first recordedVideoId st :
  let fetched :=
    with_storage (with_db true (storage st))
      (with_trace (trace st ++ [CallGetVideo recordedVideoId]) st) in
  (videos (storage st) !! recordedVideoId = None →
   uploadButton_onClick recordedVideoId st = (Ok tt, fetched)) ∧
  (∀ video, videos (storage st) !! recordedVideoId = Some video →
   uploadButton_onClick recordedVideoId st
   = not_awaited (handleUpload recordedVideoId (blob video)) fetched ∧
   ∃ events,
     trace (snd (uploadButton_onClick recordedVideoId st))
     = trace st ++ CallGetVideo recordedVideoId
         :: SetUploadProgress starting_progress
         :: call_event (uploadMode st) (blob video) :: events) ∧
  (∀ video, ∃ events,
     trace (snd (storedVideo_onClick video st))
     = trace st ++ SetUploadProgress starting_progress
         :: call_event (uploadMode st) (blob video) :: events).
Proof.
  cbv zeta.
  assert (Hclick : uploadButton_onClick recordedVideoId st
            = match videos (storage st) !! recordedVideoId with
              | Some video =>
                  not_awaited (handleUpload recordedVideoId (blob video))
                    (with_storage (with_db true (storage st))
                       (with_trace (trace st ++ [CallGetVideo recordedVideoId]) st))
              | None =>
                  (Ok tt,
                   with_storage (with_db true (storage st))
                     (with_trace (trace st ++ [CallGetVideo recordedVideoId]) st))
              end).
  { unfold uploadButton_onClick, bind at 1, videoStorage, bind, log, modify, zoom.
    cbn [storage with_trace]. rewrite getVideo_run.
    destruct (videos (storage st) !! recordedVideoId); reflexivity. }
  split; [ | split ].
  - intros Hnone. rewrite Hclick, Hnone. reflexivity.
  - intros video Hsome. rewrite Hclick, Hsome. split; [ reflexivity | ].
    rewrite not_awaited_state.
    destruct (handleUpload_trace recordedVideoId (blob video)
                (with_storage (with_db true (storage st))
                   (with_trace (trace st ++ [CallGetVideo recordedVideoId]) st)))
      as (events & Hevents).
    exists events. rewrite Hevents. cbn. rewrite <- app_assoc. reflexivity.
  - intros video. unfold storedVideo_onClick. rewrite not_awaited_state.
    apply handleUpload_trace.
Qed.

Lemma uploadButton_fetches_record_first_witness :
  uploadButton_onClick "video_0_gone" (page_over empty_service ForceFail)
  = (Ok tt,
     with_storage (with_db true empty_service)
       (with_trace [CallGetVideo "video_0_gone"] (page_over empty_service ForceFail))) ∧
  uploadButton_onClick sample_id (page_over sample_service ForceFail)
  = not_awaited (handleUpload sample_id sample_blob)
      (with_storage (with_db true sample_service)
         (with_trace [CallGetVideo sample_id] (page_over sample_service ForceFail))).
Proof.
  split.
  - apply (proj1 (uploadButton_fetches_record_first "video_0_gone"
                    (page_over empty_service ForceFail))).
    vm_compute. reflexivity.
  - apply (proj1 (proj2 (uploadButton_fetches_record_first sample_id
                    (page_over sample_service ForceFail)))
             (new_video sample_env sample_blob)).
    vm_compute. reflexivity.
Defined.

(** *** The force-fail mode does not depend on the record *)

(** C10. In force-fail mode the upload of any record goes the same way:
    whatever the id, the payload and the store are, [handleUpload]
    returns, the strategy returns the same failure with the same message,
    the same events are appended to the trace (the same notifications, in
    the same order, and no call on the store), the progress ends in the
    same state, and the store is not touched. *)
Theorem forceFail_independent_of_record id1 b1 st1 id2 b2 st2 :
  uploadMode st1 = ForceFail → uploadMode st2 = ForceFail →
  let run1 := handleUpload id1 b1 st1 in
  let run2 := handleUpload id2 b2 st2 in
  outcome (uploadMode st1) b1 = outcome (uploadMode st2) b2 ∧
  outcome (uploadMode st1) b1
  = Ok {| UploadResult.success := false;
          UploadResult.message := "Network connection lost - Upload failed";
          UploadResult.uploadedUrl := None |} ∧
  delivered (uploadMode st1) b1 = delivered (uploadMode st2) b2 ∧
  fst run1 = Ok tt ∧ fst run2 = Ok tt ∧
  (∃ events,
     trace (snd run1) = trace st1 ++ events ∧
     trace (snd run2) = trace st2 ++ events ∧
     events = SetUploadProgress starting_progress :: CallForceFailUpload
                :: map SetUploadProgress (delivered ForceFail b1)) ∧
  uploadProgress (snd run1) = uploadProgress (snd run2) ∧
  storage (snd run1) = storage st1 ∧ storage (snd run2) = storage st2.
Proof.
  intros Hmode1 Hmode2. cbv zeta.
  assert (Hrun : ∀ videoId b st, uploadMode st = ForceFail →
            handleUpload videoId b st = (Ok tt, after_strategy b st)).
  { intros videoId b st Hmode. rewrite handleUpload_run, Hmode. reflexivity. }
  assert (Hlast : ∀ b st, uploadMode st = ForceFail →
            uploadProgress (after_strategy b st)
            = {| UploadProgress.status := failed; UploadProgress.progress := 0;
                 UploadProgress.message := "Network connection lost" |}).
  { intros b st Hmode. unfold after_strategy. rewrite Hmode. reflexivity. }
  destruct (after_strategy_frame b1 st1) as (Hs1 & _ & _ & Ht1).
  destruct (after_strategy_frame b2 st2) as (Hs2 & _ & _ & Ht2).
  rewrite (Hrun id1 b1 st1 Hmode1), (Hrun id2 b2 st2 Hmode2). cbn [fst snd].
  rewrite (Hlast b1 st1 Hmode1), (Hlast b2 st2 Hmode2), Hs1, Hs2, Ht1, Ht2.
  rewrite Hmode1, Hmode2.
  repeat split. eexists. repeat split.
Qed.

Lemma forceFail_independent_of_record_witness :
  let st1 := page_over sample_service ForceFail in
  let st2 := page_over empty_service ForceFail in
  let b2 := {| bytes := [x00; x01]; type := "video/mp4" |} in
  let run1 := handleUpload sample_id sample_blob st1 in
  let run2 := handleUpload "video_0_gone" b2 st2 in
  outcome (uploadMode st1) sample_blob = outcome (uploadMode st2) b2 ∧
  outcome (uploadMode st1) sample_blob
  = Ok {| UploadResult.success := false;
          UploadResult.message := "Network connection lost - Upload failed";
          UploadResult.uploadedUrl := None |} ∧
  delivered (uploadMode st1) sample_blob = delivered (uploadMode st2) b2 ∧
  fst run1 = Ok tt ∧ fst run2 = Ok tt ∧
  (∃ events,
     trace (snd run1) = trace st1 ++ events ∧
     trace (snd run2) = trace st2 ++ events ∧
     events = SetUploadProgress starting_progress :: CallForceFailUpload
                :: map SetUploadProgress (delivered ForceFail sample_blob)) ∧
  uploadProgress (snd run1) = uploadProgress (snd run2) ∧
  storage (snd run1) = storage st1 ∧ storage (snd run2) = storage st2.
Proof.
  apply (forceFail_independent_of_record
           sample_id sample_blob (page_over sample_service ForceFail)
           "video_0_gone" {| bytes := [x00; x01]; type := "video/mp4" |}
           (page_over empty_service ForceFail)); reflexivity.
Defined.

(** *** Success, and retry after a failure *)

(** An upload whose strategy returns success marks the record, which
    stays in the store with its payload, and reloads the list. *)
Lemma successful_upload_marks_record videoId b st result video :
  keyed (storage st) →
  outcome (uploadMode st) b = Ok result →
  UploadResult.success result = true →
  videos (storage st) !! videoId = Some video →
  let st' := snd (handleUpload videoId b st) in
  fst (handleUpload videoId b st) = Ok tt ∧
  videos (storage st') !! videoId = Some (set_uploaded video) ∧
  storedVideos st' = (map_to_list (videos (storage st'))).*2.
Proof.
  intros Hkeyed Hreturned Hsuccess Hsome. cbv zeta.
  destruct (after_strategy_frame b st) as (Hs & _).
  rewrite handleUpload_run, Hreturned, after_upload_run, Hsuccess. cbv zeta.
  rewrite Hs, Hsome, loadStoredVideos_run. cbn.
  rewrite (Hkeyed _ _ Hsome), lookup_insert_eq. auto.
Qed.

(** When the record is gone by the time the strategy returns success,
    [markAsUploaded] throws and [handleUpload] ends with that error. *)
Lemma successful_upload_of_missing_record_throws videoId b st result :
  outcome (uploadMode st) b = Ok result →
  UploadResult.success result = true →
  videos (storage st) !! videoId = None →
  fst (handleUpload videoId b st) = Throw NotFound.
Proof.
  intros Hreturned Hsuccess Hnone.
  destruct (after_strategy_frame b st) as (Hs & _).
  rewrite handleUpload_run, Hreturned, after_upload_run, Hsuccess. cbv zeta.
  rewrite Hs, Hnone. reflexivity.
Qed.

(** A failed upload followed by a successful one of the same record: the
    record is unmarked and the button enabled in between, and marked at
    the end. *)
Lemma failed_then_successful_upload videoId b st video random now :
  keyed (storage st) →
  videos (storage st) !! videoId = Some video →
  uploadMode st = ForceFail →
  Qle_bool random (3 # 10) = false →
  let st1 := snd (handleUpload videoId b st) in
  let st2 := snd (setUploadMode (Mock random now) st1) in
  let st3 := snd (handleUpload videoId b st2) in
  videos (storage st1) !! videoId = Some video ∧
  upload_disabled st1 = false ∧
  videos (storage st3) !! videoId = Some (set_uploaded video).
Proof.
  intros Hkeyed Hsome Hmode Hrandom. cbv zeta.
  destruct (after_strategy_frame b st) as (Hs & _).
  assert (Hrun : handleUpload videoId b st = (Ok tt, after_strategy b st))
    by (rewrite handleUpload_run, Hmode; reflexivity).
  assert (Hstatus : UploadProgress.status (uploadProgress (after_strategy b st)) = failed).
  { erewrite after_strategy_status by (rewrite Hmode; reflexivity). reflexivity. }
  rewrite Hrun. cbn [snd]. rewrite Hs.
  split; [ exact Hsome | ].
  split; [ unfold upload_disabled; rewrite Hstatus; reflexivity | ].
  set (st2 := snd (setUploadMode (Mock random now) (after_strategy b st))).
  assert (Hstorage2 : storage st2 = storage st) by exact Hs.
  eapply (successful_upload_marks_record videoId b st2).
  - rewrite Hstorage2. exact Hkeyed.
  - unfold st2. cbn [setUploadMode modify snd uploadMode with_uploadMode].
    unfold outcome, attempt, mockUpload. rewrite Hrandom. reflexivity.
  - reflexivity.
  - rewrite Hstorage2. exact Hsome.
Qed.

(** *** Deleting from the list *)

(** [handleDelete] never sees an error from [deleteVideo]: it deletes,
    silently when there is nothing to delete, and reloads the list. *)
Lemma handleDelete_run videoId st :
  ∃ st',
    handleDelete videoId st = (Ok tt, st') ∧
    videos (storage st') = delete videoId (videos (storage st)) ∧
    storedVideos st' = (map_to_list (videos (storage st'))).*2 ∧
    trace st' = trace st ++ [CallDeleteVideo videoId; CallGetAllVideos].
Proof.
  unfold handleDelete, try_catch, bind, videoStorage, bind, log, modify, zoom.
  cbn [storage with_trace]. rewrite deleteVideo_run, loadStoredVideos_run.
  eexists. split; [ reflexivity | ]. cbn. rewrite <- app_assoc. auto.
Qed.

End PageFacts.

(** ** The store: lazy opening and the listing *)

Module StoreListingFacts.

Import VideoStorage StoreModel StoreCalls VideoStorageFacts.

(** Opening the database first changes nothing: a method called on a
    service that was never opened gives the answer, and leaves the
    records, that it gives after [init]; but for [getStorageEstimate],
    which does not open the database, the whole state is the same. *)
Theorem init_is_implicit op s :
  fst ((init ;; call op) s) = fst (call op s) ∧
  videos (snd ((init ;; call op) s)) = videos (snd (call op s)) ∧
  ((∀ estimate, op ≠ OpGetStorageEstimate estimate) →
   (init ;; call op) s = call op s ∧ db (snd (call op s)) = true).
Proof.
  destruct op as [ | env b | | key | key | key | estimate ];
    unfold call, bind at 1, init, modify; cbv iota beta; unfold bind.
  - auto.
  - rewrite !saveVideo_run. cbn [videos with_db].
    destruct (videos s !! id (new_video env b)); auto.
  - rewrite !getAllVideos_run. auto.
  - rewrite !getVideo_run. auto.
  - rewrite !markAsUploaded_run. cbn [videos with_db].
    destruct (videos s !! key); auto.
  - rewrite !deleteVideo_run. auto.
  - destruct estimate as [ estimate | ]; cbn; (split; [ reflexivity | split; [ reflexivity | ] ]);
      intros Hne; destruct (Hne _ eq_refl).
Qed.

Lemma init_is_implicit_witness :
  (init ;; call (OpGetVideo sample_id)) sample_service
  = call (OpGetVideo sample_id) sample_service ∧
  db (snd (call (OpGetVideo sample_id) sample_service)) = true.
Proof.
  apply (init_is_implicit (OpGetVideo sample_id) sample_service).
  intros estimate. discriminate.
Defined.

Lemma listing_elem s video :
  video ∈ listing s ↔ ∃ key, videos s !! key = Some video.
Proof.
  unfold listing. rewrite list_elem_of_fmap. split.
  - intros ([key v] & -> & Hin). exists key. apply elem_of_map_to_list, Hin.
  - intros (key & Hsome). exists (key, video).
    split; [ reflexivity | apply elem_of_map_to_list, Hsome ].
Qed.

Lemma listing_ids s : keyed s → id <$> listing s = (map_to_list (videos s)).*1.
Proof.
  intros Hkeyed. unfold listing. rewrite <- list_fmap_compose.
  apply Forall_fmap_ext_1, Forall_forall. intros [key video] Hin.
  apply elem_of_map_to_list in Hin. exact (Hkeyed _ _ Hin).
Qed.

(** The list of [getAllVideos] and the lookups of [getVideo] agree: a
    record is listed exactly when [getVideo] finds it under its id, no two
    listed records share an id, and the list is as long as the store has
    records. *)
Theorem listing_agrees_with_lookup s :
  keyed s →
  fst (getAllVideos s) = Ok (listing s) ∧
  (∀ video, video ∈ listing s ↔ fst (getVideo (id video) s) = Ok (Some video)) ∧
  NoDup (id <$> listing s) ∧
  length (listing s) = size (videos s).
Proof.
  intros Hkeyed. rewrite getAllVideos_run.
  split; [ reflexivity | ]. split; [ | split ].
  - intros video. rewrite getVideo_run, listing_elem. cbn [fst]. split.
    + intros (key & Hsome). rewrite <- (Hkeyed _ _ Hsome) in Hsome.
      rewrite Hsome. reflexivity.
    + intros [= Hsome]. eauto.
  - rewrite (listing_ids s Hkeyed). apply NoDup_fst_map_to_list.
  - unfold listing. rewrite length_fmap. apply length_map_to_list.
Qed.

Lemma listing_agrees_with_lookup_witness :
  fst (getAllVideos sample_service) = Ok (listing sample_service) ∧
  (∀ video, video ∈ listing sample_service
            ↔ fst (getVideo (id video) sample_service) = Ok (Some video)) ∧
  NoDup (id <$> listing sample_service) ∧
  length (listing sample_service) = size (videos sample_service).
Proof.
  apply (listing_agrees_with_lookup sample_service).
  apply reachable_keyed, sample_service_reachable.
Defined.

(** A successful [saveVideo] adds exactly the new record to the list; a
    refused one leaves the list as it was. *)
Theorem saveVideo_extends_listing env b s :
  match fst (saveVideo env b s) with
  | Ok key =>
      listing (snd (saveVideo env b s)) ≡ₚ new_video env b :: listing s ∧
      length (listing (snd (saveVideo env b s))) = Datatypes.S (length (listing s))
  | _ => listing (snd (saveVideo env b s)) = listing s
  end.
Proof.
  rewrite saveVideo_run.
  destruct (videos s !! id (new_video env b)) eqn:Hfresh; cbn [fst snd]; [ reflexivity | ].
  assert (Hperm : listing (with_videos (<[id (new_video env b) := new_video env b]> (videos s))
                             (with_db true s))
                  ≡ₚ new_video env b :: listing s).
  { unfold listing. cbn [videos with_videos].
    rewrite (map_to_list_insert _ _ _ Hfresh). reflexivity. }
  split; [ exact Hperm | ]. rewrite Hperm. reflexivity.
Qed.

(** [deleteVideo] takes exactly the record of the id off the list, and
    leaves the list as it was when the id has no record. *)
Theorem deleteVideo_shrinks_listing key s :
  match videos s !! key with
  | Some video => listing s ≡ₚ video :: listing (snd (deleteVideo key s))
  | None => listing (snd (deleteVideo key s)) = listing s
  end.
Proof.
  rewrite deleteVideo_run. cbn [snd]. unfold listing. cbn [videos with_videos with_db].
  destruct (videos s !! key) as [video|] eqn:Hlookup.
  - rewrite <- (map_to_list_delete _ _ _ Hlookup). reflexivity.
  - rewrite delete_id by exact Hlookup. reflexivity.
Qed.

(** [markAsUploaded] neither adds nor removes a record: the list keeps
    its other entries and its length, and the entry of the id is the one
    that was there with [uploaded] set. *)
Theorem markAsUploaded_keeps_listing key s video :
  keyed s → videos s !! key = Some video →
  ∃ others,
    listing s ≡ₚ video :: others ∧
    listing (snd (markAsUploaded key s)) ≡ₚ set_uploaded video :: others ∧
    length (listing (snd (markAsUploaded key s))) = length (listing s).
Proof.
  intros Hkeyed Hsome. pose proof (Hkeyed _ _ Hsome) as Hid.
  rewrite markAsUploaded_run, Hsome, Hid. cbn [snd].
  exists ((map_to_list (delete key (videos s))).*2).
  assert (H1 : listing s ≡ₚ video :: (map_to_list (delete key (videos s))).*2).
  { unfold listing. rewrite <- (map_to_list_delete _ _ _ Hsome). reflexivity. }
  assert (H2 : listing (with_videos (<[key := set_uploaded video]> (videos s)) (with_db true s))
               ≡ₚ set_uploaded video :: (map_to_list (delete key (videos s))).*2).
  { unfold listing. cbn [videos with_videos].
    rewrite <- insert_delete_eq.
    rewrite map_to_list_insert by apply lookup_delete_eq. reflexivity. }
  split; [ exact H1 | split; [ exact H2 | ] ].
  rewrite H1, H2. reflexivity.
Qed.

Lemma markAsUploaded_keeps_listing_witness :
  ∃ others,
    listing sample_service ≡ₚ new_video sample_env sample_blob :: others ∧
    listing (snd (markAsUploaded sample_id sample_service))
      ≡ₚ set_uploaded (new_video sample_env sample_blob) :: others ∧
    length (listing (snd (markAsUploaded sample_id sample_service)))
    = length (listing sample_service).
Proof.
  apply (markAsUploaded_keeps_listing sample_id sample_service).
  - apply reachable_keyed, sample_service_reachable.
  - vm_compute. reflexivity.
Defined.

(** Creating a record and deleting it again leaves the records as they
    were before. *)
Theorem saveVideo_then_deleteVideo env b s key s1 :
  saveVideo env b s = (Ok key, s1) →
  ∃ s2, deleteVideo key s1 = (Ok tt, s2) ∧ videos s2 = videos s.
Proof.
  rewrite saveVideo_run.
  destruct (videos s !! id (new_video env b)) eqn:Hfresh; [ discriminate | ].
  intros [= <- <-]. rewrite deleteVideo_run. eexists. split; [ reflexivity | ].
  cbn [videos with_videos with_db]. rewrite delete_insert_eq. apply delete_id, Hfresh.
Qed.

Lemma saveVideo_then_deleteVideo_witness :
  ∃ s2, deleteVideo sample_id sample_service = (Ok tt, s2) ∧
        videos s2 = videos empty_service.
Proof.
  apply (saveVideo_then_deleteVideo sample_env sample_blob empty_service).
  vm_compute. reflexivity.
Defined.

Lemma saveVideo_twice_distinct_witness :
  sample_id ≠ "video_1704567890123_9k2xq0c1a".
Proof.
  apply (saveVideo_twice_distinct sample_env sample_blob
           {| now_id := 1704567890123; now_timestamp := 1704567890123;
              random36 := "0.9k2xq0c1azz"; isoString := "2024-01-06T18:51:30.123Z" |}
           sample_blob empty_service sample_id sample_service
           "video_1704567890123_9k2xq0c1a"
           (snd (saveVideo
                   {| now_id := 1704567890123; now_timestamp := 1704567890123;
                      random36 := "0.9k2xq0c1azz";
                      isoString := "2024-01-06T18:51:30.123Z" |}
                   sample_blob sample_service)));
    vm_compute; reflexivity.
Defined.

Lemma absent_stays_absent_witness :
  videos (exec_all [OpMarkAsUploaded "video_0_gone"; OpGetAllVideos;
                    OpDeleteVideo sample_id; OpMarkAsUploaded sample_id]
            sample_service) !! "video_0_gone" = None.
Proof.
  apply absent_stays_absent.
  - apply reachable_keyed, sample_service_reachable.
  - vm_compute. reflexivity.
  - repeat constructor; discriminate.
Defined.

Lemma payload_write_once_witness :
  ∃ video',
    videos (exec_all [OpMarkAsUploaded sample_id;
                      OpSaveVideo sample_env {| bytes := []; type := "video/webm" |};
                      OpDeleteVideo "video_0_gone"; OpMarkAsUploaded sample_id]
              sample_service) !! sample_id = Some video' ∧
    blob video' = blob (new_video sample_env sample_blob) ∧
    timestamp video' = timestamp (new_video sample_env sample_blob) ∧
    fileName video' = fileName (new_video sample_env sample_blob) ∧
    (uploaded (new_video sample_env sample_blob) = true → uploaded video' = true).
Proof.
  apply payload_write_once.
  - apply reachable_keyed, sample_service_reachable.
  - vm_compute. reflexivity.
  - repeat constructor; discriminate.
Defined.

End StoreListingFacts.

(** ** The strategies: observer, outcome, terminal notification *)

Module StrategyFacts.

Import VideoStorage UploadService StoreModel UploadModel UploadServiceFacts.

(** The observer is optional: without one a strategy returns what it
    returns with one, and touches nothing. *)
Theorem attempt_without_observer {S} strategy b (s : S) :
  attempt strategy b None s = (outcome strategy b, s).
Proof.
  environment_cases strategy;
    unfold outcome, attempt, mockUpload; try rewrite Hrandom; reflexivity.
Qed.

(** The mock strategy succeeds exactly when the random number is above
    0.3.  Either way it reports 0, 10, ..., 100 percent and then one
    terminal notification, with 100 percent on success and 0 on failure. *)
Theorem mockUpload_decided_by_random random now b :
  ∃ result,
    outcome (Mock random now) b = Ok result ∧
    (UploadResult.success result = true ↔ (3 # 10 < random)%Q) ∧
    percents (delivered (Mock random now) b)
    = [0; 10; 20; 30; 40; 50; 60; 70; 80; 90; 100]
        ++ [if UploadResult.success result then 100 else 0].
Proof.
  unfold outcome, delivered, attempt, mockUpload.
  destruct (Qle_bool random (3 # 10)) eqn:Hrandom; cbn [negb];
    eexists; (split; [ reflexivity | split; [ | reflexivity ] ]); cbn.
  - apply Qle_bool_iff in Hrandom. split; [ discriminate | ].
    intros Hlt. destruct (Qlt_not_le _ _ Hlt Hrandom).
  - split; [ intros _ | reflexivity ].
    apply Qnot_le_lt. intros Hle. apply Qle_bool_iff in Hle. congruence.
Qed.

(** The remote strategy returns success exactly when the request resolves
    to a response with a success status whose body parses to JSON other
    than [null]; the URL it returns is then the [url] member of the body,
    if there is one. *)
Theorem realUpload_succeeds_iff answer b :
  ∃ result,
    outcome (Real answer) b = Ok result ∧
    (UploadResult.success result = true ↔
     ∃ response value,
       answer = FetchResolves response ∧ ok response = true ∧
       body response = inr value ∧ value ≠ JNull) ∧
    (∀ response members,
       answer = FetchResolves response → ok response = true →
       body response = inr (JObject members) →
       UploadResult.uploadedUrl result = member "url" members).
Proof.
  destruct answer as [ e | [ [ | ] code text [ e | [ | flag | n | str | items | members ] ] ] ];
    eexists; (split; [ reflexivity | ]); cbn; (split; [ split | ]).
  all: try discriminate.
  all: try (intros _; eexists; eexists; repeat split; discriminate).
  all: try (intros (response & value & Heq & Hok & Hbody & Hvalue);
            injection Heq as <-; cbn in Hok, Hbody; congruence).
  all: try (intros response ms Heq Hok Hbody; injection Heq as <-;
            cbn in Hok, Hbody; congruence).
  intros (response & value & Heq & _). discriminate Heq.
Qed.

Lemma realUpload_succeeds_iff_witness :
  UploadResult.uploadedUrl
    {| UploadResult.success := true;
       UploadResult.message := "Video uploaded successfully";
       UploadResult.uploadedUrl := Some (JString "https://httpbin.org/post") |}
  = member "url" [("files", JObject []); ("url", JString "https://httpbin.org/post")].
Proof.
  destruct (realUpload_succeeds_iff
              (FetchResolves
                 {| ok := true; http_status := 200; statusText := "OK";
                    body := inr (JObject [("files", JObject []);
                                          ("url", JString "https://httpbin.org/post")]) |})
              sample_blob) as (result & Hreturned & _ & Hurl).
  vm_compute in Hreturned. injection Hreturned as <-.
  exact (Hurl _ _ eq_refl eq_refl eq_refl).
Defined.

Lemma simulated_terminal_exactly_once_witness :
  terminal_count (delivered (Mock (1 # 5) 1704567890123) sample_blob) = 1%nat.
Proof. apply simulated_terminal_exactly_once. intros answer. discriminate. Defined.

Lemma realUpload_terminal_exactly_once_witness :
  terminal_count
    (delivered (Real (FetchResolves
                        {| ok := false; http_status := 503;
                           statusText := "Service Unavailable"; body := inr JNull |}))
       sample_blob) = 1%nat.
Proof. apply realUpload_terminal_exactly_once. intros code text. discriminate. Defined.

End StrategyFacts.

(** ** The handlers of the page *)

Module HandlerFacts.

Import VideoStorage UploadService Page StoreModel StoreCalls UploadModel PageModel PageActions.
Import VideoStorageFacts UploadServiceFacts PageFacts.

Lemma after_upload_keeps_progress videoId result st :
  uploadProgress (snd (after_upload videoId result st)) = uploadProgress st.
Proof.
  rewrite after_upload_run. destruct (UploadResult.success result); [ | reflexivity ].
  cbv zeta. destruct (videos (storage st) !! videoId); [ | reflexivity ].
  rewrite loadStoredVideos_run. reflexivity.
Qed.

(** The records after [handleUpload]: those before, with the record of
    the id marked when the strategy returned success and the record is
    there. *)
Lemma handleUpload_videos videoId b st :
  videos (storage (snd (handleUpload videoId b st)))
  = match outcome (uploadMode st) b, videos (storage st) !! videoId with
    | Ok result, Some video =>
        if UploadResult.success result
        then <[id video := set_uploaded video]> (videos (storage st))
        else videos (storage st)
    | _, _ => videos (storage st)
    end.
Proof.
  destruct (after_strategy_frame b st) as (Hs & _).
  rewrite handleUpload_run.
  destruct (outcome (uploadMode st) b) as [ result | e | ]; cbn [snd];
    [ | rewrite Hs; reflexivity .. ].
  rewrite after_upload_run, Hs.
  destruct (UploadResult.success result); cbv zeta.
  - destruct (videos (storage st) !! videoId); [ | reflexivity ].
    rewrite loadStoredVideos_run. reflexivity.
  - cbn [snd]. rewrite Hs. destruct (videos (storage st) !! videoId); reflexivity.
Qed.

(** An upload never loses or alters a recording, whatever the mode and
    however it ends: every record is still there with its payload,
    timestamp, file name and id; a flag that was set stays set; records
    under other ids are exactly as before; and no record appears. *)
Theorem handleUpload_keeps_recordings videoId b st key :
  keyed (storage st) →
  match videos (storage st) !! key with
  | Some video =>
      ∃ video',
        videos (storage (snd (handleUpload videoId b st))) !! key = Some video' ∧
        blob video' = blob video ∧ timestamp video' = timestamp video ∧
        fileName video' = fileName video ∧ id video' = id video ∧
        (uploaded video = true → uploaded video' = true) ∧
        (key ≠ videoId → video' = video)
  | None => videos (storage (snd (handleUpload videoId b st))) !! key = None
  end.
Proof.
  intros Hkeyed. rewrite handleUpload_videos.
  destruct (videos (storage st) !! key) as [video|] eqn:Hkey.
  - destruct (outcome (uploadMode st) b) as [ result | e | ];
      [ | exists video; rewrite Hkey; repeat split; auto .. ].
    destruct (videos (storage st) !! videoId) as [target|] eqn:Htarget;
      [ | exists video; rewrite Hkey; repeat split; auto ].
    destruct (UploadResult.success result);
      [ | exists video; rewrite Hkey; repeat split; auto ].
    rewrite (Hkeyed _ _ Htarget), lookup_insert.
    case_decide as Hsame.
    + subst key. assert (target = video) as -> by congruence.
      exists (set_uploaded video). repeat split; congruence.
    + exists video. rewrite Hkey. repeat split; auto.
  - destruct (outcome (uploadMode st) b) as [ result | e | ]; [ | exact Hkey .. ].
    destruct (videos (storage st) !! videoId) as [target|] eqn:Htarget; [ | exact Hkey ].
    destruct (UploadResult.success result); [ | exact Hkey ].
    rewrite (Hkeyed _ _ Htarget), lookup_insert_ne; [ exact Hkey | congruence ].
Qed.

Lemma handleUpload_keeps_recordings_witness :
  ∃ video',
    videos (storage (snd (handleUpload sample_id sample_blob
                            (page_over sample_service (Mock (1 # 2) 1704567899000)))))
      !! sample_id = Some video' ∧
    blob video' = sample_blob.
Proof.
  pose proof (handleUpload_keeps_recordings sample_id sample_blob
                (page_over sample_service (Mock (1 # 2) 1704567899000)) sample_id) as H.
  change (videos (storage (page_over sample_service (Mock (1 # 2) 1704567899000))))
    with (videos sample_service) in H at 1.
  rewrite sample_service_lookup in H.
  destruct H as (video' & Hlookup & Hblob & _).
  - apply reachable_keyed, sample_service_reachable.
  - exists video'. split; [ exact Hlookup | exact Hblob ].
Defined.

(** No upload locks the page: when [handleUpload] is over the progress
    shows the terminal status that goes with the result of the strategy,
    so the upload buttons are enabled again. *)
Theorem handleUpload_ends_terminal videoId b st :
  ∃ result,
    outcome (uploadMode st) b = Ok result ∧
    UploadProgress.status (uploadProgress (snd (handleUpload videoId b st)))
    = status_of result ∧
    upload_disabled (snd (handleUpload videoId b st)) = false.
Proof.
  destruct (attempt_returns (uploadMode st) b) as (result & Hreturned).
  exists result. split; [ exact Hreturned | ].
  assert (Hstatus : UploadProgress.status
                      (uploadProgress (snd (handleUpload videoId b st)))
                    = status_of result).
  { rewrite handleUpload_run, Hreturned, after_upload_keeps_progress.
    apply after_strategy_status, Hreturned. }
  split; [ exact Hstatus | ].
  unfold upload_disabled. rewrite Hstatus. unfold status_of.
  destruct (UploadResult.success result); reflexivity.
Qed.

(** A successful upload of a stored record marks it, keeps it in the
    store, and reloads the list, which then shows the record as uploaded. *)
Theorem successful_upload_marks_and_lists videoId b st result video :
  keyed (storage st) →
  outcome (uploadMode st) b = Ok result →
  UploadResult.success result = true →
  videos (storage st) !! videoId = Some video →
  let st' := snd (handleUpload videoId b st) in
  fst (handleUpload videoId b st) = Ok tt ∧
  fst (getVideo videoId (storage st')) = Ok (Some (set_uploaded video)) ∧
  set_uploaded video ∈ storedVideos st' ∧
  (∀ listed, listed ∈ storedVideos st' → id listed = videoId → uploaded listed = true) ∧
  In (CallMarkAsUploaded videoId) (trace st').
Proof.
  intros Hkeyed Hreturned Hsuccess Hsome. cbv zeta.
  destruct (successful_upload_marks_record videoId b st result video
              Hkeyed Hreturned Hsuccess Hsome) as (Hok & Hmarked & Hlist).
  split; [ exact Hok | ].
  split; [ rewrite getVideo_run, Hmarked; reflexivity | ].
  assert (Hlisting : ∀ listed, listed ∈ storedVideos (snd (handleUpload videoId b st))
            ↔ ∃ key, videos (storage (snd (handleUpload videoId b st))) !! key
                     = Some listed).
  { intros listed. rewrite Hlist. apply StoreListingFacts.listing_elem. }
  split; [ apply Hlisting; eauto | ].
  split.
  - intros listed Hin Hid. apply Hlisting in Hin as (key & Hkey).
    assert (Hkeyed' : keyed (storage (snd (handleUpload videoId b st)))).
    { intros k v Hv. rewrite handleUpload_videos, Hreturned, Hsome, Hsuccess in Hv.
      rewrite lookup_insert in Hv. case_decide as Hk.
      - injection Hv as <-. exact Hk.
      - exact (Hkeyed _ _ Hv). }
    pose proof (Hkeyed' _ _ Hkey) as Hkey_id.
    rewrite Hid in Hkey_id. subst key.
    assert (listed = set_uploaded video) as -> by congruence. reflexivity.
  - destruct (after_strategy_frame b st) as (Hs & _).
    rewrite handleUpload_run, Hreturned, after_upload_run, Hsuccess. cbv zeta.
    rewrite Hs, Hsome, loadStoredVideos_run. cbn [snd trace with_storedVideos
      with_storage with_trace].
    apply in_or_app. left. apply in_or_app. right. left. reflexivity.
Qed.

Lemma successful_upload_marks_and_lists_witness :
  let st := page_over sample_service (Mock (1 # 2) 1704567899000) in
  let st' := snd (handleUpload sample_id sample_blob st) in
  fst (handleUpload sample_id sample_blob st) = Ok tt ∧
  fst (getVideo sample_id (storage st'))
  = Ok (Some (set_uploaded (new_video sample_env sample_blob))) ∧
  set_uploaded (new_video sample_env sample_blob) ∈ storedVideos st' ∧
  (∀ listed, listed ∈ storedVideos st' → id listed = sample_id → uploaded listed = true) ∧
  In (CallMarkAsUploaded sample_id) (trace st').
Proof.
  eapply (successful_upload_marks_and_lists sample_id sample_blob
            (page_over sample_service (Mock (1 # 2) 1704567899000))).
  - apply reachable_keyed, sample_service_reachable.
  - vm_compute. reflexivity.
  - reflexivity.
  - vm_compute. reflexivity.
Defined.

(** An upload of an id whose record is gone (a stale list entry): the
    strategy is still called with the payload it was handed, and when it
    returns success [markAsUploaded] throws the not-found error, which
    ends [handleUpload]; the records are as before and the list is not
    reloaded. *)
Theorem stale_upload_ends_in_NotFound videoId b st result :
  outcome (uploadMode st) b = Ok result →
  UploadResult.success result = true →
  videos (storage st) !! videoId = None →
  let st' := snd (handleUpload videoId b st) in
  fst (handleUpload videoId b st) = Throw NotFound ∧
  videos (storage st') = videos (storage st) ∧
  storedVideos st' = storedVideos st ∧
  In (call_event (uploadMode st) b) (trace st') ∧
  upload_disabled st' = false.
Proof.
  intros Hreturned Hsuccess Hnone. cbv zeta.
  destruct (after_strategy_frame b st) as (Hs & Hv & _ & Ht).
  pose proof (after_strategy_status b st result Hreturned) as Hstatus.
  rewrite handleUpload_run, Hreturned, after_upload_run, Hsuccess. cbv zeta.
  rewrite Hs, Hnone. cbn [fst snd storage storedVideos trace with_storage with_trace videos
                            with_db].
  repeat split.
  - exact Hv.
  - rewrite Ht. apply in_or_app. left. apply in_or_app. right. right. left. reflexivity.
  - unfold upload_disabled. cbn [uploadProgress with_storage with_trace].
    rewrite Hstatus. unfold status_of. rewrite Hsuccess. reflexivity.
Qed.

Lemma stale_upload_ends_in_NotFound_witness :
  let st := page_over empty_service (Mock (1 # 2) 1704567899000) in
  let st' := snd (handleUpload "video_0_gone" sample_blob st) in
  fst (handleUpload "video_0_gone" sample_blob st) = Throw NotFound ∧
  videos (storage st') = videos (storage st) ∧
  storedVideos st' = storedVideos st ∧
  In (call_event (uploadMode st) sample_blob) (trace st') ∧
  upload_disabled st' = false.
Proof.
  eapply (stale_upload_ends_in_NotFound "video_0_gone" sample_blob
            (page_over empty_service (Mock (1 # 2) 1704567899000))).
  - vm_compute. reflexivity.
  - reflexivity.
  - vm_compute. reflexivity.
Defined.

Lemma failed_then_successful_upload_witness :
  let st := page_over sample_service ForceFail in
  let st1 := snd (handleUpload sample_id sample_blob st) in
  let st2 := snd (setUploadMode (Mock (1 # 2) 1704567899000) st1) in
  let st3 := snd (handleUpload sample_id sample_blob st2) in
  videos (storage st1) !! sample_id = Some (new_video sample_env sample_blob) ∧
  upload_disabled st1 = false ∧
  videos (storage st3) !! sample_id
  = Some (set_uploaded (new_video sample_env sample_blob)).
Proof.
  apply (failed_then_successful_upload sample_id sample_blob
           (page_over sample_service ForceFail)).
  - apply reachable_keyed, sample_service_reachable.
  - vm_compute. reflexivity.
  - reflexivity.
  - reflexivity.
Defined.

(** [handleDelete] never fails, also for an id without a record: it
    deletes the record of the id and nothing else, and reloads the list,
    which then has no entry with the id. *)
Theorem handleDelete_removes_and_reloads videoId st :
  keyed (storage st) →
  let st' := snd (handleDelete videoId st) in
  fst (handleDelete videoId st) = Ok tt ∧
  fst (getVideo videoId (storage st')) = Ok None ∧
  (∀ other, other ≠ videoId →
     videos (storage st') !! other = videos (storage st) !! other) ∧
  in_sync st' ∧
  (∀ listed, listed ∈ storedVideos st' → id listed ≠ videoId).
Proof.
  intros Hkeyed. cbv zeta.
  destruct (handleDelete_run videoId st) as (st' & Hrun & Hvideos & Hlist & _).
  rewrite Hrun. cbn [fst snd].
  split; [ reflexivity | ].
  split; [ rewrite getVideo_run, Hvideos, lookup_delete_eq; reflexivity | ].
  split; [ intros other Hne; rewrite Hvideos; apply lookup_delete_ne; congruence | ].
  split; [ exact Hlist | ].
  intros listed Hin Hid. rewrite Hlist in Hin.
  apply StoreListingFacts.listing_elem in Hin as (key & Hkey).
  rewrite Hvideos, lookup_delete in Hkey. case_decide as Hk; [ discriminate | ].
  apply Hk. rewrite <- Hid. exact (Hkeyed _ _ Hkey).
Qed.

Lemma handleDelete_removes_and_reloads_witness :
  let st' := snd (handleDelete sample_id (page_over sample_service ForceFail)) in
  fst (handleDelete sample_id (page_over sample_service ForceFail)) = Ok tt ∧
  fst (getVideo sample_id (storage st')) = Ok None ∧
  (∀ other, other ≠ sample_id →
     videos (storage st') !! other = videos sample_service !! other) ∧
  in_sync st' ∧
  (∀ listed, listed ∈ storedVideos st' → id listed ≠ sample_id).
Proof.
  apply (handleDelete_removes_and_reloads sample_id (page_over sample_service ForceFail)).
  apply reachable_keyed, sample_service_reachable.
Defined.

(** *** The list on the page *)

Lemma uploadButton_onClick_state recordedVideoId st :
  snd (uploadButton_onClick recordedVideoId st)
  = let fetched :=
      with_storage (with_db true (storage st))
        (with_trace (trace st ++ [CallGetVideo recordedVideoId]) st) in
    match videos (storage st) !! recordedVideoId with
    | Some video => snd (handleUpload recordedVideoId (blob video) fetched)
    | None => fetched
    end.
Proof.
  unfold uploadButton_onClick, bind at 1, videoStorage, bind, log, modify, zoom.
  cbn [storage with_trace]. rewrite getVideo_run. cbv zeta.
  destruct (videos (storage st) !! recordedVideoId); [ | reflexivity ].
  apply not_awaited_state.
Qed.

Lemma handleUpload_in_sync videoId b st :
  in_sync st → in_sync (snd (handleUpload videoId b st)).
Proof.
  unfold in_sync, listing. intros Hsync.
  destruct (after_strategy_frame b st) as (Hs & Hv & _).
  rewrite handleUpload_run.
  destruct (outcome (uploadMode st) b) as [ result | e | ]; cbn [snd];
    [ | rewrite Hs, Hv; exact Hsync .. ].
  rewrite after_upload_run, Hs.
  destruct (UploadResult.success result); cbv zeta;
    [ | cbn [snd]; rewrite Hs, Hv; exact Hsync ].
  destruct (videos (storage st) !! videoId).
  - rewrite loadStoredVideos_run. reflexivity.
  - cbn. rewrite Hv. exact Hsync.
Qed.

(** The list on the page keeps showing what the store holds: if it does
    before a run of uploads, deletions, refreshes, mode changes and clicks
    on the upload buttons, it does after it. *)
Theorem handlers_keep_list_in_sync actions st :
  in_sync st → in_sync (perform_all actions st).
Proof.
  revert st. induction actions as [ | a actions IH ]; intros st Hsync; [ exact Hsync | ].
  cbn [perform_all fold_left]. apply IH.
  destruct a as [ videoId b | videoId | | mode | | recordedVideoId | video ]; cbn [perform].
  - apply handleUpload_in_sync, Hsync.
  - destruct (handleDelete_run videoId st) as (st' & Hrun & _ & Hlist & _).
    rewrite Hrun. exact Hlist.
  - rewrite loadStoredVideos_run. reflexivity.
  - exact Hsync.
  - exact Hsync.
  - rewrite uploadButton_onClick_state. cbv zeta.
    destruct (videos (storage st) !! recordedVideoId); [ | exact Hsync ].
    apply handleUpload_in_sync. exact Hsync.
  - unfold storedVideo_onClick. rewrite not_awaited_state.
    apply handleUpload_in_sync, Hsync.
Qed.

Lemma handlers_keep_list_in_sync_witness :
  in_sync
    (perform_all
       [ ClickListUpload (new_video sample_env sample_blob);
         SelectMode (Mock (1 # 2) 1704567899000);
         ClickUploadButton sample_id; ResetProgress;
         Delete sample_id; Upload sample_id sample_blob; Refresh ]
       (page_over sample_service ForceFail)).
Proof. apply handlers_keep_list_in_sync. reflexivity. Defined.

End HandlerFacts.

(** ** The recorder *)

Module RecorderFacts.

Import VideoStorage VideoRecorder StoreModel RecorderModel.
Import VideoStorageFacts.

Lemma concat_nonempty_chunks (chunks : list Blob) :
  concat (map bytes (List.filter (fun data => (0 <? size data)%nat) chunks))
  = concat (map bytes chunks).
Proof.
  induction chunks as [ | data chunks IH ]; [ reflexivity | ].
  cbn [List.filter]. destruct (0 <? size data)%nat eqn:Hsize; cbn [map concat].
  - rewrite IH. reflexivity.
  - assert (Hempty : bytes data = []).
    { unfold size in Hsize. destruct (bytes data); [ reflexivity | discriminate ]. }
    rewrite Hempty, IH. reflexivity.
Qed.

(** Unfold the handlers of the hook down to the records they build. *)
Ltac run_hook :=
  cbv [bind ret throw get_state modify try_catch zoom
       startRecording stopRecording onstop clearRecording tick ondataavailable
       setError setDuration setRecordingState setRecordedVideoId setRecordedVideoUrl
       set_streamRef set_mediaRecorderRef set_chunksRef set_durationIntervalRef
       getUserMedia new_MediaRecorder recorder_start start_interval
       release_stream clear_interval update_hook chosen_mime
       with_hook with_service with_live with_intervals with_revoked
       hook service live intervals revoked
       recordingState recordedVideoUrl recordedVideoId error duration
       mediaRecorderRef streamRef chunksRef durationIntervalRef
       userMedia vp9 construct_throws start_throws mimeType active
       save_env objectUrl fst snd].

Ltac projections :=
  cbn [hook service live intervals revoked with_hook with_service with_live
       with_intervals with_revoked recordingState recordedVideoUrl recordedVideoId
       error duration mediaRecorderRef streamRef chunksRef durationIntervalRef
       fst snd].

Ltac projections_in H :=
  cbn [hook service live intervals revoked with_hook with_service with_live
       with_intervals with_revoked recordingState recordedVideoUrl recordedVideoId
       error duration mediaRecorderRef streamRef chunksRef durationIntervalRef
       fst snd] in H.

Lemma released_not_live (stream : nat) (streams : gset nat) :
  stream ∉ streams ∖ {[stream]}.
Proof. rewrite elem_of_difference, elem_of_singleton. tauto. Qed.

Lemma release_shrinks (stream : nat) (streams : gset nat) :
  streams ∖ {[stream]} ⊆ streams.
Proof. intros x. rewrite elem_of_difference. tauto. Qed.

Lemma granted_is_live (stream : nat) (streams : gset nat) :
  stream ∈ {[stream]} ∪ streams.
Proof. apply elem_of_union. left. apply elem_of_singleton. reflexivity. Qed.

Lemma deliver_run e w :
  (0 < intervals w)%nat →
  ∃ h,
    deliver e w = (Ok tt, with_hook h w) ∧
    duration h = duration (hook w) + ticks_of [e] ∧
    chunksRef h
    = chunksRef (hook w) ++ List.filter (fun data => (0 <? size data)%nat) (data_of [e]) ∧
    same_session (hook w) h.
Proof.
  intros Harmed. destruct w as [h s l i r]. cbn in Harmed.
  destruct e as [ data | ]; cbn [deliver].
  - unfold ondataavailable.
    destruct (0 <? size data)%nat eqn:Hsize.
    + eexists. split; [ reflexivity | ]. cbn -[Nat.ltb size Z.add]. rewrite Hsize.
      split; [ lia | ]. split; [ reflexivity | ]. repeat split.
    + exists h. split; [ reflexivity | ]. cbn -[Nat.ltb size Z.add].
      rewrite Hsize, app_nil_r.
      split; [ lia | ]. split; [ reflexivity | ]. repeat split.
  - unfold tick, bind, get_state. cbn [intervals].
    destruct (Nat.ltb_spec 0 i) as [ _ | Hnot ]; [ | lia ].
    eexists. split; [ reflexivity | ]. cbn -[Nat.ltb size Z.add]. rewrite app_nil_r.
    split; [ lia | ]. split; [ reflexivity | ]. repeat split.
Qed.

(** What the browser delivers during a recording goes into the hook and
    nowhere else: every tick of an armed timer adds one to [duration],
    every chunk that is not empty is appended to the chunks. *)
Lemma deliver_all_run events w :
  (0 < intervals w)%nat →
  ∃ h,
    deliver_all events w = (Ok tt, with_hook h w) ∧
    duration h = duration (hook w) + ticks_of events ∧
    chunksRef h
    = chunksRef (hook w) ++ List.filter (fun data => (0 <? size data)%nat) (data_of events) ∧
    same_session (hook w) h.
Proof.
  revert w. induction events as [ | e events IH ]; intros w Harmed.
  - exists (hook w). destruct w as [h s l i r]. cbn.
    rewrite app_nil_r, Z.add_0_r. repeat split; reflexivity.
  - destruct (deliver_run e w Harmed) as (h1 & Hrun1 & Hd1 & Hc1 & Hs1).
    destruct (IH (with_hook h1 w) Harmed) as (h2 & Hrun2 & Hd2 & Hc2 & Hs2).
    exists h2. cbn [deliver_all]. unfold bind. rewrite Hrun1, Hrun2.
    cbn [hook with_hook] in Hd2, Hc2, Hs2.
    split; [ reflexivity | ].
    split; [ rewrite Hd2, Hd1; destruct e; cbn [ticks_of]; lia | ].
    split.
    + rewrite Hc2, Hc1, <- app_assoc. f_equal.
      destruct e as [ data | ]; cbn -[Nat.ltb size]; [ | reflexivity ].
      destruct (0 <? size data)%nat; reflexivity.
    + unfold same_session in *. intuition congruence.
Qed.

Lemma startRecording_granted env stream w :
  userMedia env = inr stream → construct_throws env = None → start_throws env = None →
  ∃ h,
    startRecording env w
    = (Ok tt,
       with_intervals (Datatypes.S (intervals w))
         (with_live ({[stream]} ∪ live w) (with_hook h w))) ∧
    recordingState h = recording ∧ duration h = 0 ∧ chunksRef h = [] ∧
    error h = None ∧ streamRef h = Some stream ∧
    mediaRecorderRef h = Some {| mimeType := chosen_mime env; active := true |} ∧
    durationIntervalRef h = true ∧
    recordedVideoId h = recordedVideoId (hook w) ∧
    recordedVideoUrl h = recordedVideoUrl (hook w).
Proof.
  destruct env as [media codec construct start]. cbn [userMedia construct_throws start_throws].
  intros -> -> ->. destruct w as [h s l i r]. run_hook.
  eexists. split; [ reflexivity | ]. run_hook. repeat split.
Qed.

Lemma stopRecording_run w r :
  recordingState (hook w) = recording → mediaRecorderRef (hook w) = Some r →
  ∃ h,
    stopRecording w = (Ok tt, with_hook h w) ∧
    mediaRecorderRef h = Some {| mimeType := mimeType r; active := false |} ∧
    duration h = duration (hook w) ∧ chunksRef h = chunksRef (hook w) ∧
    recordingState h = recording ∧ streamRef h = streamRef (hook w) ∧
    durationIntervalRef h = durationIntervalRef (hook w) ∧
    recordedVideoId h = recordedVideoId (hook w) ∧
    recordedVideoUrl h = recordedVideoUrl (hook w) ∧ error h = error (hook w).
Proof.
  destruct w as [h s l i r']. destruct h. run_hook. intros -> ->.
  eexists. split; [ reflexivity | ]. run_hook. repeat split.
Qed.

(** The state after the handler of [stop], in terms of the state before it
    and of what [saveVideo] did. *)
Lemma onstop_run mime env w :
  let saved := saveVideo (save_env env) (new_Blob (chunksRef (hook w)) mime) (service w) in
  ∃ h,
    onstop mime env w
    = (Ok tt,
       with_intervals
         (if durationIntervalRef (hook w) then pred (intervals w) else intervals w)
         (with_live
            (match streamRef (hook w) with
             | Some stream => live w ∖ {[stream]}
             | None => live w
             end)
            (with_service (snd saved) (with_hook h w)))) ∧
    streamRef h = None ∧ durationIntervalRef h = false ∧
    duration h = duration (hook w) ∧ chunksRef h = chunksRef (hook w) ∧
    mediaRecorderRef h = mediaRecorderRef (hook w) ∧
    match fst saved with
    | Ok key =>
        recordingState h = stopped ∧ recordedVideoId h = Some key ∧
        recordedVideoUrl h = Some (objectUrl env) ∧ error h = error (hook w)
    | _ =>
        recordingState h = idle ∧ error h = Some "Failed to save video locally" ∧
        recordedVideoId h = recordedVideoId (hook w) ∧
        recordedVideoUrl h = recordedVideoUrl (hook w)
    end.
Proof.
  cbv zeta. destruct w as [h s l i r]. destruct h as [st url key err d rec stream chunks timer].
  destruct env as [save url']. run_hook. rewrite saveVideo_run.
  destruct (videos s !! id (new_video save (new_Blob chunks mime)));
    destruct stream; destruct timer; run_hook;
    (eexists; split; [ reflexivity | ]; run_hook; repeat split).
Qed.

(** When the camera is refused or missing, [startRecording] does not
    throw: the hook is idle with an error message, the named message for
    the two errors the code knows, and nothing was taken: no stream is
    live that was not, no timer is armed, the refs and the store are as
    before. *)
Theorem startRecording_rejected env e w :
  userMedia env = inl e →
  ∃ h,
    startRecording env w = (Ok tt, with_hook h w) ∧
    recordingState h = idle ∧ duration h = 0 ∧
    error h = Some (start_error_message e) ∧
    (∀ message, e = JsError "NotAllowedError" message →
       error h = Some "Camera access denied. Please grant permission.") ∧
    (∀ message, e = JsError "NotFoundError" message →
       error h = Some "No camera found on this device.") ∧
    streamRef h = streamRef (hook w) ∧
    mediaRecorderRef h = mediaRecorderRef (hook w) ∧
    durationIntervalRef h = durationIntervalRef (hook w) ∧
    chunksRef h = chunksRef (hook w).
Proof.
  destruct env as [media codec construct start]. cbn [userMedia]. intros ->.
  destruct w as [h s l i r]. run_hook.
  eexists. split; [ reflexivity | ]. run_hook.
  repeat split; intros message ->; reflexivity.
Qed.

Lemma startRecording_rejected_witness :
  ∃ h,
    startRecording denying (fresh_world sample_service)
    = (Ok tt, with_hook h (fresh_world sample_service)) ∧
    recordingState h = idle ∧
    error h = Some "Camera access denied. Please grant permission.".
Proof.
  destruct (startRecording_rejected denying (JsError "NotAllowedError" "Permission denied")
              (fresh_world sample_service) eq_refl)
    as (h & Hrun & Hidle & _ & _ & Hdenied & _).
  exists h. split; [ exact Hrun | split; [ exact Hidle | ] ].
  exact (Hdenied _ eq_refl).
Defined.

(** While a recording runs, [duration] counts the ticks of the timer
    since the start and the chunks are the non-empty pieces of data the
    browser delivered, in the order they came. *)
Theorem recording_counts_ticks_and_keeps_data env stream events w :
  userMedia env = inr stream → construct_throws env = None → start_throws env = None →
  let w' := snd ((startRecording env ;; deliver_all events) w) in
  fst ((startRecording env ;; deliver_all events) w) = Ok tt ∧
  recordingState (hook w') = recording ∧
  duration (hook w') = ticks_of events ∧
  chunksRef (hook w')
  = List.filter (fun data => (0 <? size data)%nat) (data_of events) ∧
  stream ∈ live w' ∧
  service w' = service w.
Proof.
  intros Hmedia Hconstruct Hstart. cbv zeta.
  destruct (startRecording_granted env stream w Hmedia Hconstruct Hstart)
    as (h1 & Hrun1 & Hstate1 & Hd1 & Hc1 & _ & _ & _ & _).
  unfold bind. rewrite Hrun1.
  match goal with
  | |- context [deliver_all events ?w1] =>
      destruct (deliver_all_run events w1) as (h2 & Hrun2 & Hd2 & Hc2 & Hs2);
        [ cbn; lia | ]
  end.
  rewrite Hrun2. projections. projections_in Hd2. projections_in Hc2.
  destruct Hs2 as (Hstate2 & _). projections_in Hstate2.
  rewrite Hd2, Hd1, Hc2, Hc1, Hstate2, Hstate1.
  repeat split. apply granted_is_live.
Qed.

Lemma recording_counts_ticks_and_keeps_data_witness :
  let w' := snd ((startRecording granting ;; deliver_all sample_events)
                   (fresh_world empty_service)) in
  duration (hook w') = 2 ∧
  chunksRef (hook w')
  = [ {| bytes := [x1a; x45]; type := "video/webm" |};
      {| bytes := [xdf; xa3]; type := "video/webm" |} ].
Proof.
  destruct (recording_counts_ticks_and_keeps_data granting 1%nat sample_events
              (fresh_world empty_service) eq_refl eq_refl eq_refl)
    as (_ & _ & Hduration & Hchunks & _).
  split; [ exact Hduration | exact Hchunks ].
Defined.

(** When the recorder has stopped, the camera and the timer are given
    back whether or not the recording could be saved: the tracks of the
    stream in the ref are stopped, both refs are cleared, and the timer of
    the ref is no longer armed. *)
Theorem onstop_releases_camera_and_timer mime env w :
  let w' := snd (onstop mime env w) in
  fst (onstop mime env w) = Ok tt ∧
  streamRef (hook w') = None ∧
  durationIntervalRef (hook w') = false ∧
  (∀ stream, streamRef (hook w) = Some stream → stream ∉ live w') ∧
  live w' ⊆ live w ∧
  (durationIntervalRef (hook w) = true → intervals w' = pred (intervals w)) ∧
  (recordingState (hook w') = stopped ∨ recordingState (hook w') = idle).
Proof.
  cbv zeta. destruct (onstop_run mime env w) as (h & Hrun & Hstream & Htimer & _ & _ & _ & Hsaved).
  rewrite Hrun. projections.
  split; [ reflexivity | ]. split; [ exact Hstream | ]. split; [ exact Htimer | ].
  split; [ intros stream ->; apply released_not_live | ].
  split; [ destruct (streamRef (hook w)); [ apply release_shrinks | reflexivity ] | ].
  split; [ intros ->; reflexivity | ].
  destruct (fst (saveVideo (save_env env) (new_Blob (chunksRef (hook w)) mime) (service w)));
    [ left | right | right ]; apply Hsaved.
Qed.

Lemma onstop_releases_camera_and_timer_witness :
  let w := snd (startRecording granting (fresh_world empty_service)) in
  let w' := snd (onstop "video/webm; codecs=vp9" sample_stop w) in
  (1%nat ∉ live w') ∧ intervals w' = 0%nat.
Proof.
  destruct (onstop_releases_camera_and_timer "video/webm; codecs=vp9" sample_stop
              (snd (startRecording granting (fresh_world empty_service))))
    as (_ & _ & _ & Hreleased & _ & Htimer & _).
  split; [ apply Hreleased; reflexivity | ].
  rewrite Htimer by reflexivity. reflexivity.
Defined.

(** When the recording cannot be saved, here because the generated id is
    taken, the handler of [stop] does not throw: the hook goes back to
    idle with the error message, no id and no URL are set, and the records
    of the store are as before. *)
Theorem onstop_reports_failed_save mime env w :
  is_Some (videos (service w)
             !! make_id (now_id (save_env env)) (random36 (save_env env))) →
  let w' := snd (onstop mime env w) in
  fst (onstop mime env w) = Ok tt ∧
  recordingState (hook w') = idle ∧
  error (hook w') = Some "Failed to save video locally" ∧
  recordedVideoId (hook w') = recordedVideoId (hook w) ∧
  recordedVideoUrl (hook w') = recordedVideoUrl (hook w) ∧
  videos (service w') = videos (service w).
Proof.
  intros [old Hold]. cbv zeta.
  destruct (onstop_run mime env w) as (h & Hrun & _ & _ & _ & _ & _ & Hsaved).
  rewrite Hrun. projections. rewrite saveVideo_run in Hsaved |- *.
  change (id (new_video (save_env env) (new_Blob (chunksRef (hook w)) mime)))
    with (make_id (now_id (save_env env)) (random36 (save_env env))) in Hsaved |- *.
  rewrite Hold in Hsaved |- *. cbn [fst snd] in Hsaved |- *.
  destruct Hsaved as (Hidle & Herror & Hid & Hurl).
  repeat split; assumption.
Qed.

Lemma onstop_reports_failed_save_witness :
  let w' := snd (onstop "video/webm" sample_stop (fresh_world sample_service)) in
  recordingState (hook w') = idle ∧
  error (hook w') = Some "Failed to save video locally" ∧
  videos (service w') = videos sample_service.
Proof.
  destruct (onstop_reports_failed_save "video/webm" sample_stop (fresh_world sample_service))
    as (_ & Hidle & Herror & _ & _ & Hvideos).
  - vm_compute. eexists. reflexivity.
  - split; [ exact Hidle | split; [ exact Herror | exact Hvideos ] ].
Defined.

Lemma ticks_of_app events1 events2 :
  ticks_of (events1 ++ events2) = ticks_of events1 + ticks_of events2.
Proof.
  induction events1 as [ | [ data | ] events1 IH ]; cbn [app ticks_of]; lia.
Qed.

(** The run of a whole session, step by step. *)
Lemma session_run start stream events flushed stop w :
  userMedia start = inr stream → construct_throws start = None →
  start_throws start = None →
  videos (service w) !! make_id (now_id (save_env stop)) (random36 (save_env stop)) = None →
  let w' := snd (session start events flushed stop w) in
  fst (session start events flushed stop w) = Ok tt ∧
  recordingState (hook w') = stopped ∧
  (∃ key video,
     recordedVideoId (hook w') = Some key ∧
     fst (getVideo key (service w')) = Ok (Some video) ∧
     bytes (blob video) = concat (map bytes (data_of (events ++ flushed))) ∧
     type (blob video) = chosen_mime start ∧
     uploaded video = false) ∧
  duration (hook w') = ticks_of (events ++ flushed) ∧
  (stream ∉ live w') ∧ streamRef (hook w') = None ∧
  intervals w' = intervals w ∧ durationIntervalRef (hook w') = false.
Proof.
  intros Hmedia Hconstruct Hstart Hfresh. cbv zeta.
  destruct (startRecording_granted start stream w Hmedia Hconstruct Hstart)
    as (h1 & Hrun1 & Hstate1 & Hd1 & Hc1 & _ & Hstream1 & Hrec1 & Htimer1 & _).
  unfold session, bind. rewrite Hrun1.
  match goal with
  | |- context [deliver_all events ?w1] =>
      destruct (deliver_all_run events w1) as (h2 & Hrun2 & Hd2 & Hc2 & Hs2);
        [ cbn; lia | ]
  end.
  rewrite Hrun2. projections_in Hd2. projections_in Hc2.
  destruct Hs2 as (Hstate2 & _ & _ & _ & Hrec2 & Hstream2 & Htimer2).
  projections_in Hstate2. projections_in Hrec2. projections_in Hstream2.
  projections_in Htimer2.
  match goal with
  | |- context [stopRecording ?w2] =>
      destruct (stopRecording_run w2 {| mimeType := chosen_mime start; active := true |})
        as (h3 & Hrun3 & _ & Hd3 & Hc3 & _ & Hstream3 & Htimer3 & _);
        [ projections; congruence | projections; congruence | ]
  end.
  rewrite Hrun3. projections_in Hd3. projections_in Hc3. projections_in Hstream3.
  projections_in Htimer3.
  match goal with
  | |- context [deliver_all flushed ?w3] =>
      destruct (deliver_all_run flushed w3) as (h3' & Hrun3' & Hd3' & Hc3' & Hs3');
        [ cbn; lia | ]
  end.
  rewrite Hrun3'. projections_in Hd3'. projections_in Hc3'.
  destruct Hs3' as (_ & _ & _ & _ & _ & Hstream3' & Htimer3').
  projections_in Hstream3'. projections_in Htimer3'.
  match goal with
  | |- context [onstop ?mime stop ?w4] =>
      destruct (onstop_run mime stop w4)
        as (h4 & Hrun4 & Hstream4 & Htimer4 & Hd4 & _ & _ & Hsaved)
  end.
  rewrite Hrun4. projections_in Hd4. projections_in Hsaved. projections.
  rewrite saveVideo_run in Hsaved |- *.
  change (id (new_video (save_env stop) (new_Blob (chunksRef h3') (chosen_mime start))))
    with (make_id (now_id (save_env stop)) (random36 (save_env stop))) in Hsaved |- *.
  rewrite Hfresh in Hsaved |- *. cbn [fst snd] in Hsaved |- *.
  destruct Hsaved as (Hstopped & Hid & _).
  split; [ reflexivity | ]. split; [ exact Hstopped | ].
  split.
  - exists (make_id (now_id (save_env stop)) (random36 (save_env stop))),
           (new_video (save_env stop) (new_Blob (chunksRef h3') (chosen_mime start))).
    split; [ exact Hid | ].
    split; [ rewrite getVideo_run; cbn [fst videos with_videos with_db];
             rewrite lookup_insert_eq; reflexivity | ].
    split; [ | split; reflexivity ].
    cbn [blob new_video bytes new_Blob].
    rewrite Hc3', Hc3, Hc2, Hc1. cbn [app].
    rewrite <- List.filter_app, <- (concat_nonempty_chunks (data_of (events ++ flushed))).
    unfold data_of. rewrite omap_app. reflexivity.
  - split; [ rewrite Hd4, Hd3', Hd3, Hd2, Hd1, ticks_of_app; lia | ].
    split; [ rewrite Hstream3', Hstream3, Hstream2, Hstream1; apply released_not_live | ].
    split; [ exact Hstream4 | ].
    split; [ rewrite Htimer3', Htimer3, Htimer2, Htimer1; reflexivity | exact Htimer4 ].
Qed.

(** A session that starts and whose record can be saved comes out as one
    stored record.  When the camera is granted, the recorder is made and
    started without an error, and no record has the id that [saveVideo]
    generates in the [stop] handler, then after start, the data and ticks
    the browser delivers, stop, the data flushed after the stop and the
    [stop] event, the hook is [stopped] and holds the id of a record whose
    payload is the delivered data in order, with the MIME type chosen at
    the start and [uploaded = false]; [duration] is the number of ticks;
    the stream is no longer live and no timer of the session is left
    armed.  (What happens when the id is taken is
    [onstop_reports_failed_save].) *)
Theorem session_saves_what_was_recorded start stream events flushed stop w :
  userMedia start = inr stream → construct_throws start = None →
  start_throws start = None →
  videos (service w) !! make_id (now_id (save_env stop)) (random36 (save_env stop)) = None →
  let w' := snd (session start events flushed stop w) in
  fst (session start events flushed stop w) = Ok tt ∧
  recordingState (hook w') = stopped ∧
  (∃ key video,
     recordedVideoId (hook w') = Some key ∧
     fst (getVideo key (service w')) = Ok (Some video) ∧
     bytes (blob video) = concat (map bytes (data_of (events ++ flushed))) ∧
     type (blob video) = chosen_mime start ∧
     uploaded video = false) ∧
  duration (hook w') = ticks_of (events ++ flushed) ∧
  (stream ∉ live w') ∧ streamRef (hook w') = None ∧
  intervals w' = intervals w ∧ durationIntervalRef (hook w') = false.
Proof. exact (session_run start stream events flushed stop w). Qed.

Lemma session_saves_what_was_recorded_witness :
  let w' := snd (session granting sample_events sample_flushed sample_stop
                   (fresh_world empty_service)) in
  recordingState (hook w') = stopped ∧
  (∃ key video,
     recordedVideoId (hook w') = Some key ∧
     fst (getVideo key (service w')) = Ok (Some video) ∧
     bytes (blob video) = [x1a; x45; xdf; xa3; x42] ∧
     type (blob video) = "video/webm; codecs=vp9" ∧
     uploaded video = false) ∧
  duration (hook w') = 2 ∧ (1%nat ∉ live w').
Proof.
  destruct (session_saves_what_was_recorded granting 1%nat sample_events sample_flushed
              sample_stop (fresh_world empty_service) eq_refl eq_refl eq_refl)
    as (_ & Hstopped & Hrecord & Hduration & Hlive & _).
  - vm_compute. reflexivity.
  - split; [ exact Hstopped | ]. split; [ exact Hrecord | ].
    split; [ exact Hduration | exact Hlive ].
Defined.

End RecorderFacts.

(** ** From the recorder to the upload *)

Module RecordAndUploadFacts.

Import VideoStorage StoreModel RecorderModel PageModel.
Import VideoStorageFacts PageFacts HandlerFacts RecorderFacts.

(** What was recorded is what gets uploaded: after a session, a click on
    the upload button with the id that the hook holds fetches the record
    and hands the strategy a payload with exactly the recorded bytes and
    the MIME type of the recording. *)
Theorem recorded_payload_is_uploaded start stream events flushed stop w st :
  VideoRecorder.userMedia start = inr stream →
  VideoRecorder.construct_throws start = None →
  VideoRecorder.start_throws start = None →
  videos (VideoRecorder.service w)
    !! make_id (now_id (VideoRecorder.save_env stop))
         (random36 (VideoRecorder.save_env stop)) = None →
  Page.storage st = VideoRecorder.service (snd (session start events flushed stop w)) →
  ∃ key payload rest,
    VideoRecorder.recordedVideoId (VideoRecorder.hook (snd (session start events flushed stop w)))
    = Some key ∧
    bytes payload = concat (map bytes (data_of (events ++ flushed))) ∧
    type payload = chosen_mime start ∧
    Page.trace (snd (Page.uploadButton_onClick key st))
    = Page.trace st ++ Page.CallGetVideo key
        :: Page.SetUploadProgress starting_progress
        :: call_event (Page.uploadMode st) payload :: rest.
Proof.
  intros Hmedia Hconstruct Hstart Hfresh Hstorage.
  destruct (session_run start stream events flushed stop w Hmedia Hconstruct Hstart Hfresh)
    as (_ & _ & (key & video & Hkey & Hget & Hbytes & Htype & _) & _).
  rewrite getVideo_run in Hget. cbn [fst] in Hget. injection Hget as Hlookup.
  rewrite <- Hstorage in Hlookup.
  exists key, (blob video).
  rewrite uploadButton_onClick_state, Hlookup. cbv zeta.
  match goal with
  | |- context [Page.handleUpload key (blob video) ?fetched] =>
      destruct (handleUpload_trace key (blob video) fetched) as (rest & Hrest)
  end.
  exists rest. split; [ exact Hkey | ]. split; [ exact Hbytes | ]. split; [ exact Htype | ].
  rewrite Hrest. cbn [Page.trace Page.with_storage Page.with_trace Page.uploadMode].
  rewrite <- app_assoc. reflexivity.
Qed.

Lemma recorded_payload_is_uploaded_witness :
  let w' := snd (session granting sample_events sample_flushed sample_stop
                   (fresh_world empty_service)) in
  let st := page_over (VideoRecorder.service w') UploadService.ForceFail in
  ∃ key payload rest,
    VideoRecorder.recordedVideoId (VideoRecorder.hook w') = Some key ∧
    bytes payload = concat (map bytes (data_of (sample_events ++ sample_flushed))) ∧
    type payload = chosen_mime granting ∧
    Page.trace (snd (Page.uploadButton_onClick key st))
    = Page.trace st ++ Page.CallGetVideo key
        :: Page.SetUploadProgress starting_progress
        :: call_event (Page.uploadMode st) payload :: rest.
Proof.
  apply (recorded_payload_is_uploaded granting 1%nat sample_events sample_flushed sample_stop
           (fresh_world empty_service)); reflexivity.
Defined.

End RecordAndUploadFacts.

(** ** Formatting *)

Module FormatFacts.

Import VideoStorage StoreModel Format VideoStorageFacts.

Lemma pretty_N_char_not_colon n : Ascii.eqb (pretty_N_char n) ":" = false.
Proof. unfold pretty_N_char. repeat case_match; reflexivity. Qed.

Lemma no_colon_pretty_N_go n s :
  has_char ":" s = false → has_char ":" (pretty_N_go n s) = false.
Proof.
  revert s. induction (N.lt_wf_0 n) as [n _ IH]. intros s Hs.
  destruct (decide (n = 0)%N) as [-> | Hpos].
  - rewrite pretty_N_go_0. exact Hs.
  - rewrite pretty_N_go_step by lia.
    apply IH; [ apply N.div_lt; lia | ].
    cbn [has_char]. rewrite pretty_N_char_not_colon. exact Hs.
Qed.

(** The decimal rendering of an integer has no colon. *)
Lemma no_colon_pretty_Z (z : Z) : has_char ":" (pretty z) = false.
Proof.
  assert (Hpos : ∀ p : positive, has_char ":" (pretty p) = false).
  { intros p. unfold pretty, pretty_positive, pretty, pretty_N.
    case_decide; [ discriminate | ]. apply no_colon_pretty_N_go. reflexivity. }
  destruct z as [ | p | p ]; unfold pretty, pretty_Z.
  - reflexivity.
  - apply Hpos.
  - cbn. apply Hpos.
Qed.

Lemma append_inv_head (prefix s t : string) : prefix +:+ s = prefix +:+ t → s = t.
Proof.
  induction prefix as [ | c prefix IH ]; simpl; [ auto | ].
  intros [= H]. exact (IH H).
Qed.

(** The seconds field for each of the sixty remainders: two characters,
    and different remainders give different fields. *)
Lemma seconds_field_checked :
  forallb (fun n1 =>
    Nat.eqb (String.length (padStart 2 "0" (pretty (Z.of_nat n1)))) 2 &&
    forallb (fun n2 =>
      if String.eqb (padStart 2 "0" (pretty (Z.of_nat n1)))
                    (padStart 2 "0" (pretty (Z.of_nat n2)))
      then Nat.eqb n1 n2 else true) (seq 0 60)) (seq 0 60) = true.
Proof. vm_compute. reflexivity. Qed.

Lemma seconds_field r1 :
  0 ≤ r1 < 60 →
  String.length (padStart 2 "0" (pretty r1)) = 2%nat ∧
  ∀ r2, 0 ≤ r2 < 60 →
    padStart 2 "0" (pretty r1) = padStart 2 "0" (pretty r2) → r1 = r2.
Proof.
  intros Hr1. pose proof seconds_field_checked as Hall.
  rewrite forallb_forall in Hall.
  specialize (Hall (Z.to_nat r1)).
  rewrite Z2Nat.id in Hall by lia.
  destruct (andb_prop _ _ (Hall ltac:(apply in_seq; lia))) as [Hlen Hinj].
  split; [ apply Nat.eqb_eq, Hlen | ].
  intros r2 Hr2 Heq. rewrite forallb_forall in Hinj.
  specialize (Hinj (Z.to_nat r2) ltac:(apply in_seq; lia)).
  rewrite Z2Nat.id in Hinj by lia.
  rewrite Heq, String.eqb_refl in Hinj. apply Nat.eqb_eq in Hinj. lia.
Qed.

(** For a duration from 0 to [MAX_SAFE_INTEGER], the range in which the
    definition is the code, [formatDuration] gives the minutes, a colon
    and a seconds field of exactly two characters, and the text determines
    the duration: two durations of that range that are shown the same are
    the same. *)
Theorem formatDuration_reads_back seconds :
  0 ≤ seconds ≤ MAX_SAFE_INTEGER →
  (∃ field,
     formatDuration seconds = pretty (seconds / 60) +:+ ":" +:+ field ∧
     String.length field = 2%nat) ∧
  (∀ other, 0 ≤ other ≤ MAX_SAFE_INTEGER →
     formatDuration seconds = formatDuration other → seconds = other).
Proof.
  intros [Hseconds _].
  assert (Hrem : ∀ z, 0 ≤ z → Z.rem z 60 = z mod 60 ∧ 0 ≤ z mod 60 < 60).
  { intros z Hz. split; [ apply Z.rem_mod_nonneg; lia | apply Z.mod_pos_bound; lia ]. }
  destruct (Hrem seconds Hseconds) as (Hrem1 & Hbound1).
  unfold formatDuration. cbv zeta. rewrite Hrem1.
  destruct (seconds_field (seconds mod 60) Hbound1) as (Hlength & Hinj).
  split; [ eexists; split; [ reflexivity | exact Hlength ] | ].
  intros other [Hother _]. destruct (Hrem other Hother) as (Hrem2 & Hbound2).
  rewrite Hrem2. intros Heq.
  assert (Hmins : pretty (seconds / 60) = pretty (other / 60)).
  { apply (f_equal (split_head ":")) in Heq.
    change (":" +:+ ?field) with (String ":" field) in Heq.
    rewrite !split_head_app in Heq by apply no_colon_pretty_Z. exact Heq. }
  rewrite Hmins in Heq. apply append_inv_head in Heq.
  injection Heq as Hfield.
  apply (inj pretty) in Hmins. apply Hinj in Hfield; [ | exact Hbound2 ].
  rewrite (Z.div_mod seconds 60), (Z.div_mod other 60) by lia. congruence.
Qed.

Lemma formatDuration_reads_back_witness :
  formatDuration 605 = "10:05" ∧
  (∀ other, 0 ≤ other ≤ MAX_SAFE_INTEGER →
     formatDuration 605 = formatDuration other → 605 = other).
Proof.
  destruct (formatDuration_reads_back 605) as (_ & Hinj);
    [ unfold MAX_SAFE_INTEGER; lia | ].
  split; [ vm_compute; reflexivity | exact Hinj ].
Defined.

End FormatFacts.
